(** * Fanfic generator: the Astro action layer

    A shallow embedding of the server actions of the fan-fiction data layer
    (fandoms, stories, chapters) and of the three table declarations they run
    against, followed by the properties of the authorization helpers and of
    the create / update / delete handlers.

    - a table is the list of its rows, a [select ... where] is a [filter] and
      the array destructuring [const [row] = ...] takes the first element;
      the store keeps its primary and foreign keys, and the client fails on
      an integer it cannot represent;
    - a handler is a computation in a state-and-exception monad over the
      store and a log of the statements issued against it;
    - the raw input of an action is a JavaScript value, checked by the
      action's zod schema before the handler runs. *)

From Stdlib Require Import String List ZArith Bool Arith Lia.
Import ListNotations.
Local Open Scope string_scope.

Set Implicit Arguments.

(** ** JavaScript values, as far as the schemas look at them *)

(** A number is either integer valued ([Number.isInteger]) or anything else
    a JavaScript number can be (a fraction, NaN, an infinity). *)
Unset Elimination Schemes.
Inductive JsVal : Type :=
| JUndefined
| JNull
| JBool (b : bool)
| JInt (n : Z)
| JNonInt
| JStr (s : string)
| JObj (fields : list (string * JsVal)).
Set Elimination Schemes.

(** [o[k]]: the value of a property, [undefined] when the key is missing or
    when [o] is not an object. *)
Fixpoint lookupField (k : string) (fields : list (string * JsVal)) : JsVal :=
  match fields with
  | [] => JUndefined
  | (k', v) :: rest => if String.eqb k' k then v else lookupField k rest
  end.

Definition prop (o : JsVal) (k : string) : JsVal :=
  match o with
  | JObj fields => lookupField k fields
  | _ => JUndefined
  end.

(** Truthiness of a nullable string: [null], [undefined] and the empty string
    are falsy. *)
Definition truthy (o : option string) : bool :=
  match o with
  | Some s => negb (String.eqb s EmptyString)
  | None => false
  end.

(** [a !== b] for a nullable string [a] and a string [b]. *)
Definition strictNeq (a : option string) (b : string) : bool :=
  match a with
  | Some s => negb (String.eqb s b)
  | None => true
  end.

(** ** zod schemas

    A schema is a parser: [None] is a validation failure. *)
Module z.

Definition Schema (A : Type) : Type := JsVal -> option A.

(** [z.string()] *)
Definition string_ : Schema string :=
  fun v => match v with JStr s => Some s | _ => None end.

(** [z.string().min(1)] *)
Definition string_min1 : Schema string :=
  fun v =>
    match v with
    | JStr s => if Nat.leb 1 (String.length s) then Some s else None
    | _ => None
    end.

(** [z.number().int()] *)
Definition number_int : Schema Z :=
  fun v => match v with JInt n => Some n | _ => None end.

(** [.optional()]: [undefined] is accepted and kept, anything else goes to
    the inner schema. *)
Definition optional {A : Type} (inner : Schema A) : Schema (option A) :=
  fun v =>
    match v with
    | JUndefined => Some None
    | _ => match inner v with Some a => Some (Some a) | None => None end
    end.

(** [.refine(check)] *)
Definition refine {A : Type} (inner : Schema A) (check : A -> bool) : Schema A :=
  fun v =>
    match inner v with
    | Some a => if check a then Some a else None
    | None => None
    end.

Definition isObject (v : JsVal) : bool :=
  match v with JObj _ => true | _ => false end.

End z.

(** [x !== undefined] on a parsed optional field. *)
Definition defined {A : Type} (x : option A) : bool :=
  match x with Some _ => true | None => false end.

(** ** Tables (src/db/tables.ts) *)

Definition Date : Type := Z.

Module Fandom.
Record t : Type := mk {
  id : string;
  userId : option string;
  name : string;
  canonType : option string;
  description : option string;
  isSystem : bool;
  createdAt : Date;
  updatedAt : Date
}.
End Fandom.

Module FanficStory.
Record t : Type := mk {
  id : string;
  userId : string;
  fandomId : option string;
  title : string;
  summary : option string;
  rating : option string;
  pairing : option string;
  tags : option string;
  status : option string;
  language : option string;
  createdAt : Date;
  updatedAt : Date
}.
End FanficStory.

Module FanficChapter.
Record t : Type := mk {
  id : string;
  storyId : string;
  orderIndex : Z;
  title : option string;
  notes : option string;
  content : string;
  createdAt : Date;
  updatedAt : Date
}.
End FanficChapter.

Record Db : Type := mkDb {
  Fandoms : list Fandom.t;
  FanficStories : list FanficStory.t;
  FanficChapters : list FanficChapter.t
}.

(** ** Errors and the handler monad *)

Inductive ErrorCode : Type := UNAUTHORIZED | NOT_FOUND | FORBIDDEN.

Inductive Error : Type :=
| ActionError (code : ErrorCode) (message : string)
| ActionInputError   (* the input schema rejected the input *)
| StoreError         (* the store refused the statement: primary or foreign key *)
| RangeError.        (* the client cannot hand back an integer of a returned row *)

Inductive Result (A : Type) : Type :=
| Ok (a : A)
| Err (e : Error).
Arguments Ok {A} a.
Arguments Err {A} e.

Inductive Table : Type := TFandoms | TFanficStories | TFanficChapters.

Inductive Stmt : Type :=
| Select (t : Table)
| Insert (t : Table)
| Update (t : Table)
| Delete (t : Table).

(** What a handler runs against: the store, the statements issued so far
    (oldest first), the clock that [new Date()] reads and the identifier that
    [crypto.randomUUID()] hands out. *)
Record World : Type := mkWorld {
  db : Db;
  log : list Stmt;
  clock : Date;
  entropy : string
}.

Definition M (A : Type) : Type := World -> Result A * World.

Definition ret {A : Type} (a : A) : M A := fun w => (Ok a, w).

Definition throw {A : Type} (e : Error) : M A := fun w => (Err e, w).

Definition bind {A B : Type} (m : M A) (k : A -> M B) : M B :=
  fun w =>
    match m w with
    | (Ok a, w') => k a w'
    | (Err e, w') => (Err e, w')
    end.

Notation "x <- m ;; k" := (bind m (fun x => k))
  (at level 61, m at next level, right associativity).
Notation "m ;;; k" := (bind m (fun _ => k))
  (at level 61, right associativity).

(** [new Date()] *)
Definition newDate : M Date := fun w => (Ok (clock w), w).

(** [crypto.randomUUID()] *)
Definition randomUUID : M string := fun w => (Ok (entropy w), w).

(** The world after statement [s] has left the store as [d]. *)
Definition after (s : Stmt) (d : Db) (w : World) : World :=
  mkWorld d (log w ++ [s]) (clock w) (entropy w).

(** ** The query builder (astro:db)

    The three tables share the statements; what differs is where the rows
    live in the store and which column is the primary key. *)
Class TableOf (R : Type) : Type := {
  tableName : Table;
  rows : Db -> list R;
  setRows : list R -> Db -> Db;
  primaryKey : R -> string;
  references : R -> Db -> bool;
  decode : list R -> Result (list R)
}.

(** [Number.isSafeInteger]: the integers the client hands back as numbers. *)
Definition safeInteger (n : Z) : bool :=
  (Z.leb (- (2 ^ 53 - 1)) n && Z.leb n (2 ^ 53 - 1))%Z.

(** A chapter row comes back from the store when its [orderIndex] does. *)
Definition readable (c : FanficChapter.t) : bool :=
  safeInteger (FanficChapter.orderIndex c).

(** [references: () => Fandoms.columns.id] on the optional [fandomId]. *)
Definition fandomExists (s : FanficStory.t) (d : Db) : bool :=
  match FanficStory.fandomId s with
  | Some f => existsb (fun x => String.eqb (Fandom.id x) f) (Fandoms d)
  | None => true
  end.

(** [references: () => FanficStories.columns.id] on [storyId]. *)
Definition storyExists (c : FanficChapter.t) (d : Db) : bool :=
  existsb (fun s => String.eqb (FanficStory.id s) (FanficChapter.storyId c))
          (FanficStories d).

Arguments safeInteger n : simpl never.
Arguments readable c : simpl never.
Arguments fandomExists s d : simpl never.
Arguments storyExists c d : simpl never.

#[export] Instance FandomsTable : TableOf Fandom.t := {
  tableName := TFandoms;
  rows := Fandoms;
  setRows := fun l d => mkDb l (FanficStories d) (FanficChapters d);
  primaryKey := Fandom.id;
  references := fun _ _ => true;
  decode := fun l => Ok l
}.

#[export] Instance FanficStoriesTable : TableOf FanficStory.t := {
  tableName := TFanficStories;
  rows := FanficStories;
  setRows := fun l d => mkDb (Fandoms d) l (FanficChapters d);
  primaryKey := FanficStory.id;
  references := fandomExists;
  decode := fun l => Ok l
}.

#[export] Instance FanficChaptersTable : TableOf FanficChapter.t := {
  tableName := TFanficChapters;
  rows := FanficChapters;
  setRows := fun l d => mkDb (Fandoms d) (FanficStories d) l;
  primaryKey := FanficChapter.id;
  references := storyExists;
  decode := fun l => if forallb readable l then Ok l else Err RangeError
}.

Section Statements.
Context {R : Type} `{TableOf R}.

(** [db.select().from(T).where(cond)]: the rows that match, as far as the
    client can hand them back. *)
Definition select (cond : R -> bool) : M (list R) :=
  fun w => (decode (filter cond (rows (db w))), after (Select tableName) (db w) w).

(** [db.insert(T).values(r).returning()]. The store refuses a second row
    with the same primary key and a row whose reference has no target; a row
    it accepts is written, and then handed back. *)
Definition insert (r : R) : M (list R) :=
  fun w =>
    if existsb (fun x => String.eqb (primaryKey x) (primaryKey r)) (rows (db w))
    then (Err StoreError, after (Insert tableName) (db w) w)
    else if references r (db w)
         then (decode [r],
               after (Insert tableName) (setRows (rows (db w) ++ [r]) (db w)) w)
         else (Err StoreError, after (Insert tableName) (db w) w).

(** [db.update(T).set(assign).where(cond).returning()]: the rows are
    written, and then handed back. The handlers assign a reference only
    after they have looked its target up, so the store has nothing to refuse. *)
Definition update (assign : R -> R) (cond : R -> bool) : M (list R) :=
  fun w =>
    let old := rows (db w) in
    (decode (map assign (filter cond old)),
     after (Update tableName)
           (setRows (map (fun r => if cond r then assign r else r) old) (db w)) w).

(** [db.delete(T).where(cond)]; the answer is [rowsAffected]. *)
Definition delete (cond : R -> bool) : M nat :=
  fun w =>
    let old := rows (db w) in
    (Ok (List.length (filter cond old)),
     after (Delete tableName)
           (setRows (filter (fun r => negb (cond r)) old) (db w)) w).

End Statements.

(** ** Request context and reply envelope *)

Module User.
Record t : Type := mk { id : string }.
End User.

Module App.
Record Locals : Type := mkLocals { user : option User.t }.
End App.

Record ActionAPIContext : Type := mkContext { locals : option App.Locals }.

Record Reply (A : Type) : Type := mkReply { success : bool; data : A }.
Arguments mkReply {A} success data.

(** [defineAction({ input, handler })]: the schema runs first, the handler
    only on an input the schema accepted. *)
Definition defineAction {I O : Type}
    (input : z.Schema I) (handler : I -> ActionAPIContext -> M O)
    : JsVal -> ActionAPIContext -> M O :=
  fun raw context =>
    match input raw with
    | Some i => handler i context
    | None => throw ActionInputError
    end.

(** ** Authorization helpers (part_000, lines 5-71) *)

Definition requireUser (context : ActionAPIContext) : M User.t :=
  match locals context with
  | Some l =>
      match App.user l with
      | Some u => ret u
      | None => throw (ActionError UNAUTHORIZED "You must be signed in to perform this action.")
      end
  | None => throw (ActionError UNAUTHORIZED "You must be signed in to perform this action.")
  end.

Definition ensureFandomAccessible (fandomId userId : string) : M Fandom.t :=
  found <- select (fun f => String.eqb (Fandom.id f) fandomId) ;;
  match found with
  | [] => throw (ActionError NOT_FOUND "Fandom not found.")
  | fandom :: _ =>
      if truthy (Fandom.userId fandom)
         && strictNeq (Fandom.userId fandom) userId
         && negb (Fandom.isSystem fandom)
      then throw (ActionError FORBIDDEN "You do not have access to this fandom.")
      else ret fandom
  end.

Definition getOwnedStory (storyId userId : string) : M FanficStory.t :=
  found <- select (fun s => String.eqb (FanficStory.id s) storyId
                            && String.eqb (FanficStory.userId s) userId) ;;
  match found with
  | [] => throw (ActionError NOT_FOUND "Fanfic story not found.")
  | story :: _ => ret story
  end.

Definition getOwnedChapter (chapterId storyId userId : string) : M FanficChapter.t :=
  getOwnedStory storyId userId ;;;
  found <- select (fun c => String.eqb (FanficChapter.id c) chapterId
                            && String.eqb (FanficChapter.storyId c) storyId) ;;
  match found with
  | [] => throw (ActionError NOT_FOUND "Chapter not found.")
  | chapter :: _ => ret chapter
  end.

(** ** The actions (part_000, lines 73-372)

    One module per action: the parsed input, the schema ([input]), the
    assignment of the statement's [set] and the handler. A field of a parsed
    input is [None] when it is [undefined]. *)

Module CreateFandom.
Record Input : Type := mk {
  name : string;
  canonType : option string;
  description : option string
}.

Definition input : z.Schema Input :=
  fun v =>
    if z.isObject v then
      match z.string_min1 (prop v "name"),
            z.optional z.string_ (prop v "canonType"),
            z.optional z.string_ (prop v "description") with
      | Some n, Some c, Some d => Some (mk n c d)
      | _, _, _ => None
      end
    else None.

Definition handler (i : Input) (context : ActionAPIContext)
    : M (Reply (option Fandom.t)) :=
  user <- requireUser context ;;
  now <- newDate ;;
  uuid <- randomUUID ;;
  inserted <- insert (Fandom.mk uuid (Some (User.id user)) (name i)
                                (canonType i) (description i) false now now) ;;
  ret (mkReply true (hd_error inserted)).
End CreateFandom.

Definition createFandom := defineAction CreateFandom.input CreateFandom.handler.

Module UpdateFandom.
Record Input : Type := mk {
  id : string;
  name : option string;
  canonType : option string;
  description : option string
}.

Definition object : z.Schema Input :=
  fun v =>
    if z.isObject v then
      match z.string_min1 (prop v "id"),
            z.optional z.string_min1 (prop v "name"),
            z.optional z.string_ (prop v "canonType"),
            z.optional z.string_ (prop v "description") with
      | Some i, Some n, Some c, Some d => Some (mk i n c d)
      | _, _, _, _ => None
      end
    else None.

Definition input : z.Schema Input :=
  z.refine object
    (fun i => defined (name i) || defined (canonType i) || defined (description i)).

(** The object given to [.set]: a column is assigned when its field is
    defined, [updatedAt] always. *)
Definition assign (i : Input) (now : Date) (r : Fandom.t) : Fandom.t :=
  Fandom.mk (Fandom.id r) (Fandom.userId r)
    (match name i with Some v => v | None => Fandom.name r end)
    (match canonType i with Some v => Some v | None => Fandom.canonType r end)
    (match description i with Some v => Some v | None => Fandom.description r end)
    (Fandom.isSystem r) (Fandom.createdAt r) now.

(** The test of the second guard, [fandom.userId && fandom.userId !== user.id]. *)
Definition ownedByOther (fandom : Fandom.t) (userId : string) : bool :=
  truthy (Fandom.userId fandom) && strictNeq (Fandom.userId fandom) userId.

Definition handler (i : Input) (context : ActionAPIContext)
    : M (Reply (option Fandom.t)) :=
  user <- requireUser context ;;
  fandom <- ensureFandomAccessible (id i) (User.id user) ;;
  if ownedByOther fandom (User.id user)
  then throw (ActionError FORBIDDEN "You do not have access to update this fandom.")
  else
    now <- newDate ;;
    updated <- update (assign i now) (fun r => String.eqb (Fandom.id r) (id i)) ;;
    ret (mkReply true (hd_error updated)).
End UpdateFandom.

Definition updateFandom := defineAction UpdateFandom.input UpdateFandom.handler.

Module CreateFanficStory.
Record Input : Type := mk {
  fandomId : option string;
  title : string;
  summary : option string;
  rating : option string;
  pairing : option string;
  tags : option string;
  status : option string;
  language : option string
}.

Definition input : z.Schema Input :=
  fun v =>
    if z.isObject v then
      match z.optional z.string_ (prop v "fandomId"),
            z.string_min1 (prop v "title"),
            z.optional z.string_ (prop v "summary"),
            z.optional z.string_ (prop v "rating"),
            z.optional z.string_ (prop v "pairing"),
            z.optional z.string_ (prop v "tags"),
            z.optional z.string_ (prop v "status"),
            z.optional z.string_ (prop v "language") with
      | Some f, Some t, Some s, Some r, Some p, Some g, Some u, Some l =>
          Some (mk f t s r p g u l)
      | _, _, _, _, _, _, _, _ => None
      end
    else None.

Definition handler (i : Input) (context : ActionAPIContext)
    : M (Reply (option FanficStory.t)) :=
  user <- requireUser context ;;
  (if truthy (fandomId i)
   then match fandomId i with
        | Some f => ensureFandomAccessible f (User.id user) ;;; ret tt
        | None => ret tt
        end
   else ret tt) ;;;
  now <- newDate ;;
  uuid <- randomUUID ;;
  inserted <- insert (FanficStory.mk uuid (User.id user) (fandomId i) (title i)
                        (summary i) (rating i) (pairing i) (tags i) (status i)
                        (language i) now now) ;;
  ret (mkReply true (hd_error inserted)).
End CreateFanficStory.

Definition createFanficStory :=
  defineAction CreateFanficStory.input CreateFanficStory.handler.

Module UpdateFanficStory.
(** [fandomId] is [None] when undefined, [Some None] when [null] and
    [Some (Some f)] for a string: the handler tells the three apart, the
    schema lets only the first and the last through. *)
Record Input : Type := mk {
  id : string;
  fandomId : option (option string);
  title : option string;
  summary : option string;
  rating : option string;
  pairing : option string;
  tags : option string;
  status : option string;
  language : option string
}.

Definition object : z.Schema Input :=
  fun v =>
    if z.isObject v then
      match z.string_min1 (prop v "id"),
            z.optional z.string_ (prop v "fandomId"),
            z.optional z.string_ (prop v "title"),
            z.optional z.string_ (prop v "summary"),
            z.optional z.string_ (prop v "rating"),
            z.optional z.string_ (prop v "pairing"),
            z.optional z.string_ (prop v "tags"),
            z.optional z.string_ (prop v "status"),
            z.optional z.string_ (prop v "language") with
      | Some i, Some f, Some t, Some s, Some r, Some p, Some g, Some u, Some l =>
          Some (mk i (option_map Some f) t s r p g u l)
      | _, _, _, _, _, _, _, _, _ => None
      end
    else None.

Definition input : z.Schema Input :=
  z.refine object
    (fun i => defined (fandomId i) || defined (title i) || defined (summary i)
              || defined (rating i) || defined (pairing i) || defined (tags i)
              || defined (status i) || defined (language i)).

Definition assign (i : Input) (now : Date) (r : FanficStory.t) : FanficStory.t :=
  FanficStory.mk (FanficStory.id r) (FanficStory.userId r)
    (match fandomId i with Some v => v | None => FanficStory.fandomId r end)
    (match title i with Some v => v | None => FanficStory.title r end)
    (match summary i with Some v => Some v | None => FanficStory.summary r end)
    (match rating i with Some v => Some v | None => FanficStory.rating r end)
    (match pairing i with Some v => Some v | None => FanficStory.pairing r end)
    (match tags i with Some v => Some v | None => FanficStory.tags r end)
    (match status i with Some v => Some v | None => FanficStory.status r end)
    (match language i with Some v => Some v | None => FanficStory.language r end)
    (FanficStory.createdAt r) now.

Definition handler (i : Input) (context : ActionAPIContext)
    : M (Reply (option FanficStory.t)) :=
  user <- requireUser context ;;
  getOwnedStory (id i) (User.id user) ;;;
  match fandomId i with
  | Some (Some f) => ensureFandomAccessible f (User.id user) ;;; ret tt
  | _ => ret tt
  end ;;;
  now <- newDate ;;
  updated <- update (assign i now) (fun r => String.eqb (FanficStory.id r) (id i)) ;;
  ret (mkReply true (hd_error updated)).
End UpdateFanficStory.

Definition updateFanficStory :=
  defineAction UpdateFanficStory.input UpdateFanficStory.handler.

Module CreateFanficChapter.
Record Input : Type := mk {
  storyId : string;
  orderIndex : option Z;
  title : option string;
  notes : option string;
  content : string
}.

Definition input : z.Schema Input :=
  fun v =>
    if z.isObject v then
      match z.string_min1 (prop v "storyId"),
            z.optional z.number_int (prop v "orderIndex"),
            z.optional z.string_ (prop v "title"),
            z.optional z.string_ (prop v "notes"),
            z.string_min1 (prop v "content") with
      | Some s, Some o, Some t, Some n, Some c => Some (mk s o t n c)
      | _, _, _, _, _ => None
      end
    else None.

Definition handler (i : Input) (context : ActionAPIContext)
    : M (Reply (option FanficChapter.t)) :=
  user <- requireUser context ;;
  getOwnedStory (storyId i) (User.id user) ;;;
  now <- newDate ;;
  uuid <- randomUUID ;;
  inserted <- insert (FanficChapter.mk uuid (storyId i)
                        (match orderIndex i with Some o => o | None => 1%Z end)
                        (title i) (notes i) (content i) now now) ;;
  ret (mkReply true (hd_error inserted)).
End CreateFanficChapter.

Definition createFanficChapter :=
  defineAction CreateFanficChapter.input CreateFanficChapter.handler.

Module UpdateFanficChapter.
Record Input : Type := mk {
  id : string;
  storyId : string;
  orderIndex : option Z;
  title : option string;
  notes : option string;
  content : option string
}.

Definition object : z.Schema Input :=
  fun v =>
    if z.isObject v then
      match z.string_min1 (prop v "id"),
            z.string_min1 (prop v "storyId"),
            z.optional z.number_int (prop v "orderIndex"),
            z.optional z.string_ (prop v "title"),
            z.optional z.string_ (prop v "notes"),
            z.optional z.string_ (prop v "content") with
      | Some i, Some s, Some o, Some t, Some n, Some c => Some (mk i s o t n c)
      | _, _, _, _, _, _ => None
      end
    else None.

Definition input : z.Schema Input :=
  z.refine object
    (fun i => defined (orderIndex i) || defined (title i)
              || defined (notes i) || defined (content i)).

Definition assign (i : Input) (now : Date) (r : FanficChapter.t) : FanficChapter.t :=
  FanficChapter.mk (FanficChapter.id r) (FanficChapter.storyId r)
    (match orderIndex i with Some v => v | None => FanficChapter.orderIndex r end)
    (match title i with Some v => Some v | None => FanficChapter.title r end)
    (match notes i with Some v => Some v | None => FanficChapter.notes r end)
    (match content i with Some v => v | None => FanficChapter.content r end)
    (FanficChapter.createdAt r) now.

Definition handler (i : Input) (context : ActionAPIContext)
    : M (Reply (option FanficChapter.t)) :=
  user <- requireUser context ;;
  getOwnedChapter (id i) (storyId i) (User.id user) ;;;
  now <- newDate ;;
  updated <- update (assign i now) (fun r => String.eqb (FanficChapter.id r) (id i)) ;;
  ret (mkReply true (hd_error updated)).
End UpdateFanficChapter.

Definition updateFanficChapter :=
  defineAction UpdateFanficChapter.input UpdateFanficChapter.handler.

Module DeleteFanficChapter.
Record Input : Type := mk {
  id : string;
  storyId : string
}.

Definition input : z.Schema Input :=
  fun v =>
    if z.isObject v then
      match z.string_min1 (prop v "id"), z.string_min1 (prop v "storyId") with
      | Some i, Some s => Some (mk i s)
      | _, _ => None
      end
    else None.

(** Lines 343-352: the statement after the ownership check and the test of
    its [rowsAffected]. *)
Definition deleteById (chapterId : string) : M (Reply unit) :=
  rowsAffected <- delete (fun c => String.eqb (FanficChapter.id c) chapterId) ;;
  if Nat.eqb rowsAffected 0
  then throw (ActionError NOT_FOUND "Chapter not found.")
  else ret (mkReply true tt).

Definition handler (i : Input) (context : ActionAPIContext) : M (Reply unit) :=
  user <- requireUser context ;;
  getOwnedChapter (id i) (storyId i) (User.id user) ;;;
  deleteById (id i).
End DeleteFanficChapter.

Definition deleteFanficChapter :=
  defineAction DeleteFanficChapter.input DeleteFanficChapter.handler.

(** ** Reading a run *)

Definition outcome {A : Type} (r : Result A * World) : Result A := fst r.
Definition world {A : Type} (r : Result A * World) : World := snd r.

Definition signedIn (userId : string) : ActionAPIContext :=
  mkContext (Some (App.mkLocals (Some (User.mk userId)))).

(** A store that has seen no statement yet. *)
Definition fresh (d : Db) : World := mkWorld d [] 1700000000000%Z "uuid-0".

Definition notFound (message : string) : Error := ActionError NOT_FOUND message.
Definition forbidden (message : string) : Error := ActionError FORBIDDEN message.

(** A fandom is someone else's when its owner is a non-empty string other
    than the caller's identifier. *)
Definition someoneElses (fandom : Fandom.t) (userId : string) : Prop :=
  exists owner, Fandom.userId fandom = Some owner /\ owner <> EmptyString /\ owner <> userId.


(** ** Sample stores *)

Definition ownFandom : Fandom.t :=
  Fandom.mk "f-own" (Some "u1") "Harry Potter" (Some "books") None false 10%Z 10%Z.
Definition privateFandom : Fandom.t :=
  Fandom.mk "f-private" (Some "u2") "Marvel" None None false 11%Z 11%Z.
Definition curatedFandom : Fandom.t :=
  Fandom.mk "f-curated" (Some "admin") "Star Trek" None None true 12%Z 12%Z.
Definition sharedSystemFandom : Fandom.t :=
  Fandom.mk "f-system" None "Sherlock Holmes" (Some "books") None true 13%Z 13%Z.
Definition blankOwnerFandom : Fandom.t :=
  Fandom.mk "f-blank" (Some EmptyString) "Discworld" None None false 14%Z 14%Z.

Definition story1 : FanficStory.t :=
  FanficStory.mk "s1" "u1" (Some "f-own") "New Beginnings" (Some "After the war")
                 (Some "PG-13") None None (Some "idea") None 20%Z 20%Z.
Definition story2 : FanficStory.t :=
  FanficStory.mk "s2" "u2" None "Hijack" None None None None None None 21%Z 21%Z.

Definition chapter1 : FanficChapter.t :=
  FanficChapter.mk "c1" "s1" 1%Z (Some "Prologue") None "It began." 30%Z 30%Z.
Definition chapter2 : FanficChapter.t :=
  FanficChapter.mk "c2" "s1" 2%Z None (Some "draft") "It went on." 31%Z 31%Z.

Definition sampleDb : Db :=
  mkDb [ownFandom; privateFandom; curatedFandom; sharedSystemFandom; blankOwnerFandom]
       [story1; story2]
       [chapter1; chapter2].

Definition sampleWorld : World := fresh sampleDb.

(** Raw inputs, as the transport hands them over. *)
Definition renameSystemFandom : JsVal :=
  JObj [("id", JStr "f-system"); ("name", JStr "Baker Street")].
Definition renameCuratedFandom : JsVal :=
  JObj [("id", JStr "f-curated"); ("name", JStr "Starfleet")].
Definition describeOwnFandom : JsVal :=
  JObj [("id", JStr "f-own"); ("description", JStr "The wizarding world")].
Definition clearFandomOfStory1 : JsVal :=
  JObj [("id", JStr "s1"); ("fandomId", JNull)].
Definition storyWithBlankFandom : JsVal :=
  JObj [("fandomId", JStr EmptyString); ("title", JStr "Untethered")].
Definition blankTitleForStory1 : JsVal :=
  JObj [("id", JStr "s1"); ("title", JStr EmptyString)].

(** ** What a partial update may touch

    [old] is a row before the statement and [new] the row in its place
    afterwards. A column whose field is undefined in the input keeps its
    value, a column whose field is defined takes the field's value, the
    columns no input names keep theirs, and [updatedAt] is the clock reading
    [now]. *)

Definition kept {R A I : Type} (column : R -> A) (field : option I) (old new : R) : Prop :=
  field = None -> column new = column old.

Definition fandomPatched (i : UpdateFandom.Input) (now : Date) (old new : Fandom.t) : Prop :=
  Fandom.id new = Fandom.id old /\
  Fandom.userId new = Fandom.userId old /\
  Fandom.isSystem new = Fandom.isSystem old /\
  Fandom.createdAt new = Fandom.createdAt old /\
  kept Fandom.name (UpdateFandom.name i) old new /\
  kept Fandom.canonType (UpdateFandom.canonType i) old new /\
  kept Fandom.description (UpdateFandom.description i) old new /\
  (forall v, UpdateFandom.name i = Some v -> Fandom.name new = v) /\
  (forall v, UpdateFandom.canonType i = Some v -> Fandom.canonType new = Some v) /\
  (forall v, UpdateFandom.description i = Some v -> Fandom.description new = Some v) /\
  Fandom.updatedAt new = now.

Definition storyPatched (i : UpdateFanficStory.Input) (now : Date)
    (old new : FanficStory.t) : Prop :=
  FanficStory.id new = FanficStory.id old /\
  FanficStory.userId new = FanficStory.userId old /\
  FanficStory.createdAt new = FanficStory.createdAt old /\
  kept FanficStory.fandomId (UpdateFanficStory.fandomId i) old new /\
  kept FanficStory.title (UpdateFanficStory.title i) old new /\
  kept FanficStory.summary (UpdateFanficStory.summary i) old new /\
  kept FanficStory.rating (UpdateFanficStory.rating i) old new /\
  kept FanficStory.pairing (UpdateFanficStory.pairing i) old new /\
  kept FanficStory.tags (UpdateFanficStory.tags i) old new /\
  kept FanficStory.status (UpdateFanficStory.status i) old new /\
  kept FanficStory.language (UpdateFanficStory.language i) old new /\
  (forall v, UpdateFanficStory.fandomId i = Some v -> FanficStory.fandomId new = v) /\
  (forall v, UpdateFanficStory.title i = Some v -> FanficStory.title new = v) /\
  (forall v, UpdateFanficStory.summary i = Some v -> FanficStory.summary new = Some v) /\
  (forall v, UpdateFanficStory.rating i = Some v -> FanficStory.rating new = Some v) /\
  (forall v, UpdateFanficStory.pairing i = Some v -> FanficStory.pairing new = Some v) /\
  (forall v, UpdateFanficStory.tags i = Some v -> FanficStory.tags new = Some v) /\
  (forall v, UpdateFanficStory.status i = Some v -> FanficStory.status new = Some v) /\
  (forall v, UpdateFanficStory.language i = Some v -> FanficStory.language new = Some v) /\
  FanficStory.updatedAt new = now.

Definition chapterPatched (i : UpdateFanficChapter.Input) (now : Date)
    (old new : FanficChapter.t) : Prop :=
  FanficChapter.id new = FanficChapter.id old /\
  FanficChapter.storyId new = FanficChapter.storyId old /\
  FanficChapter.createdAt new = FanficChapter.createdAt old /\
  kept FanficChapter.orderIndex (UpdateFanficChapter.orderIndex i) old new /\
  kept FanficChapter.title (UpdateFanficChapter.title i) old new /\
  kept FanficChapter.notes (UpdateFanficChapter.notes i) old new /\
  kept FanficChapter.content (UpdateFanficChapter.content i) old new /\
  (forall v, UpdateFanficChapter.orderIndex i = Some v -> FanficChapter.orderIndex new = v) /\
  (forall v, UpdateFanficChapter.title i = Some v -> FanficChapter.title new = Some v) /\
  (forall v, UpdateFanficChapter.notes i = Some v -> FanficChapter.notes new = Some v) /\
  (forall v, UpdateFanficChapter.content i = Some v -> FanficChapter.content new = v) /\
  FanficChapter.updatedAt new = now.

(** The rows of a table after an update by id: row by row, in place, the
    rows with the id are patched and the others are what they were. *)
Definition patchedById {R : Type} (rowId : R -> string) (id : string)
    (patched : R -> R -> Prop) (before after_ : list R) : Prop :=
  Forall2 (fun old new => if String.eqb (rowId old) id then patched old new else new = old)
          before after_.

(** The row an action hands back is the patched form of a row with the id. *)
Definition returnsPatched {R : Type} (rowId : R -> string) (id : string)
    (patched : R -> R -> Prop) (before : list R) (returned : option R) : Prop :=
  exists old new, returned = Some new /\ In old before /\ rowId old = id /\ patched old new.
Definition retitleStory1 : JsVal :=
  JObj [("id", JStr "s1"); ("title", JStr "Second Beginnings")].
Definition noFieldsForFandom : JsVal := JObj [("id", JStr "f-own")].
Definition noFieldsForStory : JsVal := JObj [("id", JStr "s1")].
Definition noFieldsForChapter : JsVal := JObj [("id", JStr "c1"); ("storyId", JStr "s1")].
Definition dropChapter1 : JsVal := JObj [("id", JStr "c1"); ("storyId", JStr "s1")].

(** ** The listing actions (part_000, lines 251-263 and 356-371) *)

(** The payload of a listing: [{ items, total: items.length }]. *)
Record Listing (R : Type) : Type := mkListing { items : list R; total : nat }.
Arguments mkListing {R} items total.
Arguments items {R} l.
Arguments total {R} l.

Module ListFanficStories.

(** [z.object({}).optional()] *)
Definition input : z.Schema (option unit) :=
  z.optional (fun v => if z.isObject v then Some tt else None).

Definition handler (_input : option unit) (context : ActionAPIContext)
    : M (Reply (Listing FanficStory.t)) :=
  user <- requireUser context ;;
  stories <- select (fun s => String.eqb (FanficStory.userId s) (User.id user)) ;;
  ret (mkReply true (mkListing stories (List.length stories))).

End ListFanficStories.

Definition listFanficStories :=
  defineAction ListFanficStories.input ListFanficStories.handler.

Module ListFanficChapters.

Record Input : Type := mk { storyId : string }.

Definition input : z.Schema Input :=
  fun v =>
    if z.isObject v then
      match z.string_min1 (prop v "storyId") with
      | Some s => Some (mk s)
      | None => None
      end
    else None.

Definition handler (i : Input) (context : ActionAPIContext)
    : M (Reply (Listing FanficChapter.t)) :=
  user <- requireUser context ;;
  getOwnedStory (storyId i) (User.id user) ;;;
  chapters <- select (fun c => String.eqb (FanficChapter.storyId c) (storyId i)) ;;
  ret (mkReply true (mkListing chapters (List.length chapters))).

End ListFanficChapters.

Definition listFanficChapters :=
  defineAction ListFanficChapters.input ListFanficChapters.handler.

(** ** The [server] object

    The actions by name, with the reply dropped: what is left of a run is the
    error, if any, and the world. [listFandoms] is not among them. *)

Inductive ActionName : Type :=
| CreateFandomAction
| UpdateFandomAction
| CreateFanficStoryAction
| UpdateFanficStoryAction
| ListFanficStoriesAction
| CreateFanficChapterAction
| UpdateFanficChapterAction
| DeleteFanficChapterAction
| ListFanficChaptersAction.

Definition failure {A : Type} (r : Result A * World) : option Error * World :=
  match r with
  | (Ok _, w) => (None, w)
  | (Err e, w) => (Some e, w)
  end.

Definition server (name : ActionName) (raw : JsVal) (context : ActionAPIContext)
    (w : World) : option Error * World :=
  match name with
  | CreateFandomAction => failure (createFandom raw context w)
  | UpdateFandomAction => failure (updateFandom raw context w)
  | CreateFanficStoryAction => failure (createFanficStory raw context w)
  | UpdateFanficStoryAction => failure (updateFanficStory raw context w)
  | ListFanficStoriesAction => failure (listFanficStories raw context w)
  | CreateFanficChapterAction => failure (createFanficChapter raw context w)
  | UpdateFanficChapterAction => failure (updateFanficChapter raw context w)
  | DeleteFanficChapterAction => failure (deleteFanficChapter raw context w)
  | ListFanficChaptersAction => failure (listFanficChapters raw context w)
  end.

(** [!user] in [requireUser]: the request carries no signed-in user. *)
Definition anonymous (context : ActionAPIContext) : Prop :=
  forall l, locals context = Some l -> App.user l = None.

Definition unauthorized : Error :=
  ActionError UNAUTHORIZED "You must be signed in to perform this action.".

(** ** Properties of a store *)

(** The columns of a fandom and of a story that no assignment names. *)
Definition fandomIdentity (f : Fandom.t) : string * option string * bool * Date :=
  (Fandom.id f, Fandom.userId f, Fandom.isSystem f, Fandom.createdAt f).

Definition storyIdentity (s : FanficStory.t) : string * string * Date :=
  (FanficStory.id s, FanficStory.userId s, FanficStory.createdAt s).

(** [after_] is [before] followed by rows that satisfy [fresh]. *)
Definition grownBy {K : Type} (fresh : K -> Prop) (before after_ : list K) : Prop :=
  exists extra, after_ = (before ++ extra)%list /\ Forall fresh extra.

(** From store [d] to store [d']: every fandom and every story is still
    there, in place, with its id, owner, system flag and creation date; the
    fandoms that came after are owned and are not system fandoms. *)
Definition evolves (d d' : Db) : Prop :=
  grownBy (fun k => exists id owner created, k = (id, Some owner, false, created))
          (map fandomIdentity (Fandoms d)) (map fandomIdentity (Fandoms d')) /\
  grownBy (fun _ => True)
          (map storyIdentity (FanficStories d)) (map storyIdentity (FanficStories d')).

(** No two rows of a table share the primary key. *)
Definition wellKeyed (d : Db) : Prop :=
  NoDup (map Fandom.id (Fandoms d)) /\
  NoDup (map FanficStory.id (FanficStories d)) /\
  NoDup (map FanficChapter.id (FanficChapters d)).

(** Whatever the world, a computation takes the store to one related to it. *)
Definition Steps {A : Type} (step : Db -> Db -> Prop) (m : M A) : Prop :=
  forall w, step (db w) (db (snd (m w))).

(** Primary keys stay unique from [d] to [d']. *)
Definition keepsKeys (d d' : Db) : Prop := wellKeyed d -> wellKeyed d'.

(** More raw inputs. *)
Definition newFandom : JsVal :=
  JObj [("name", JStr "Earthsea"); ("canonType", JStr "books")].
Definition newStoryInOwnFandom : JsVal :=
  JObj [("fandomId", JStr "f-own"); ("title", JStr "The Long Summer")].
Definition moveStory1ToPrivate : JsVal :=
  JObj [("id", JStr "s1"); ("fandomId", JStr "f-private")].
Definition retitleStory2 : JsVal :=
  JObj [("id", JStr "s2"); ("title", JStr "Hijacked")].
Definition newChapterForStory1 : JsVal :=
  JObj [("storyId", JStr "s1"); ("content", JStr "And then.")].
Definition newChapterForStory2 : JsVal :=
  JObj [("storyId", JStr "s2"); ("content", JStr "Intrusion.")].
Definition chaptersOfStory1 : JsVal := JObj [("storyId", JStr "s1")].
Definition chapter1UnderStory2 : JsVal :=
  JObj [("id", JStr "c1"); ("storyId", JStr "s2"); ("title", JStr "Mine now")].

(** The story an accepted input of a story-scoped action names: the [id] of
    [updateFanficStory], the [storyId] of the chapter actions. *)
Definition storyNamed (name : ActionName) (raw : JsVal) : option string :=
  match name with
  | UpdateFanficStoryAction =>
      option_map UpdateFanficStory.id (UpdateFanficStory.input raw)
  | CreateFanficChapterAction =>
      option_map CreateFanficChapter.storyId (CreateFanficChapter.input raw)
  | UpdateFanficChapterAction =>
      option_map UpdateFanficChapter.storyId (UpdateFanficChapter.input raw)
  | DeleteFanficChapterAction =>
      option_map DeleteFanficChapter.storyId (DeleteFanficChapter.input raw)
  | ListFanficChaptersAction =>
      option_map ListFanficChapters.storyId (ListFanficChapters.input raw)
  | _ => None
  end.

(** The caller owns a story with this id. *)
Definition ownsStory (d : Db) (storyId userId : string) : Prop :=
  exists s, In s (FanficStories d) /\
            FanficStory.id s = storyId /\ FanficStory.userId s = userId.

(** Row by row, [after_] is [before] but for rows whose id is [id]. *)
Definition touchesOnly {R : Type} (rowId : R -> string) (id : string)
    (before after_ : list R) : Prop :=
  Forall2 (fun r r' => r' = r \/ rowId r = id) before after_.

(** A row of [before] is in [after_] unless its id is [id]. *)
Definition removesOnly {R : Type} (rowId : R -> string) (id : string)
    (before after_ : list R) : Prop :=
  forall r, In r before -> In r after_ \/ rowId r = id.

Definition touchesFandoms (id : string) (d d' : Db) : Prop :=
  touchesOnly Fandom.id id (Fandoms d) (Fandoms d').

Definition touchesStories (id : string) (d d' : Db) : Prop :=
  touchesOnly FanficStory.id id (FanficStories d) (FanficStories d').

Definition touchesChapters (id : string) (d d' : Db) : Prop :=
  touchesOnly FanficChapter.id id (FanficChapters d) (FanficChapters d').

Definition removesChapters (id : string) (d d' : Db) : Prop :=
  removesOnly FanficChapter.id id (FanficChapters d) (FanficChapters d').
Definition describeNewFandom : JsVal :=
  JObj [("id", JStr "uuid-0"); ("description", JStr "An archipelago")].
Definition renameMissingFandom : JsVal :=
  JObj [("id", JStr "f-missing"); ("name", JStr "Nowhere")].
Definition newStoryInPrivateFandom : JsVal :=
  JObj [("fandomId", JStr "f-private"); ("title", JStr "Trespass")].

(** A store whose one fandom has the empty string as id and belongs to
    another user. *)
Definition blankIdFandom : Fandom.t :=
  Fandom.mk EmptyString (Some "u2") "Untitled universe" None None false 15%Z 15%Z.

Definition blankIdWorld : World := fresh (mkDb [blankIdFandom] [story2] []).

(** The store after a successful partial update, and its reply: the rows
    with the input's id are patched, the reply carries such a patched row,
    and the two other tables are as before. *)
Definition fandomsUpdated (i : UpdateFandom.Input) (w : World) (d : Db)
    (reply : Reply (option Fandom.t)) : Prop :=
  patchedById Fandom.id (UpdateFandom.id i) (fandomPatched i (clock w))
              (Fandoms (db w)) (Fandoms d) /\
  returnsPatched Fandom.id (UpdateFandom.id i) (fandomPatched i (clock w))
                 (Fandoms (db w)) (data reply) /\
  FanficStories d = FanficStories (db w) /\
  FanficChapters d = FanficChapters (db w).

Definition storiesUpdated (i : UpdateFanficStory.Input) (w : World) (d : Db)
    (reply : Reply (option FanficStory.t)) : Prop :=
  patchedById FanficStory.id (UpdateFanficStory.id i) (storyPatched i (clock w))
              (FanficStories (db w)) (FanficStories d) /\
  returnsPatched FanficStory.id (UpdateFanficStory.id i) (storyPatched i (clock w))
                 (FanficStories (db w)) (data reply) /\
  Fandoms d = Fandoms (db w) /\
  FanficChapters d = FanficChapters (db w).

Definition chaptersUpdated (i : UpdateFanficChapter.Input) (w : World) (d : Db)
    (reply : Reply (option FanficChapter.t)) : Prop :=
  patchedById FanficChapter.id (UpdateFanficChapter.id i) (chapterPatched i (clock w))
              (FanficChapters (db w)) (FanficChapters d) /\
  returnsPatched FanficChapter.id (UpdateFanficChapter.id i) (chapterPatched i (clock w))
                 (FanficChapters (db w)) (data reply) /\
  Fandoms d = Fandoms (db w) /\
  FanficStories d = FanficStories (db w).

(** The fandom an input of [updateFanficStory] moves the story to, if it
    names one, is there and is the caller's to use. *)
Definition fandomUsable (i : UpdateFanficStory.Input) (userId : string) (d : Db) : Prop :=
  forall f, UpdateFanficStory.fandomId i = Some (Some f) ->
    exists fandom rest,
      filter (fun x => String.eqb (Fandom.id x) f) (Fandoms d) = fandom :: rest /\
      ~ (someoneElses fandom userId /\ Fandom.isSystem fandom = false).

Definition retitleChapter1 : JsVal :=
  JObj [("id", JStr "c1"); ("storyId", JStr "s1"); ("title", JStr "Opening")].
(** ** Run equations of the helpers *)

Ltac unfold_monad :=
  unfold bind, ret, throw, newDate, randomUUID, select, update, delete, outcome, world
  in *.

Lemma ensureFandomAccessible_run (fandomId userId : string) (w : World) :
  ensureFandomAccessible fandomId userId w =
  (match filter (fun f => String.eqb (Fandom.id f) fandomId) (Fandoms (db w)) with
   | [] => Err (notFound "Fandom not found.")
   | fandom :: _ =>
       if truthy (Fandom.userId fandom) && strictNeq (Fandom.userId fandom) userId
          && negb (Fandom.isSystem fandom)
       then Err (forbidden "You do not have access to this fandom.")
       else Ok fandom
   end,
   after (Select TFandoms) (db w) w).
Proof.
  unfold ensureFandomAccessible. unfold_monad. simpl.
  destruct (filter _ (Fandoms (db w))) as [|fandom rest]; [reflexivity|].
  destruct (truthy _ && strictNeq _ _ && negb _); reflexivity.
Qed.

Lemma getOwnedStory_run (storyId userId : string) (w : World) :
  getOwnedStory storyId userId w =
  (match filter (fun s => String.eqb (FanficStory.id s) storyId
                          && String.eqb (FanficStory.userId s) userId)
                (FanficStories (db w)) with
   | [] => Err (notFound "Fanfic story not found.")
   | story :: _ => Ok story
   end,
   after (Select TFanficStories) (db w) w).
Proof.
  unfold getOwnedStory. unfold_monad. simpl.
  destruct (filter _ (FanficStories (db w))); reflexivity.
Qed.

Lemma getOwnedChapter_run (chapterId storyId userId : string) (w : World) :
  getOwnedChapter chapterId storyId userId w =
  match getOwnedStory storyId userId w with
  | (Ok _, w1) =>
      (let found := filter (fun c => String.eqb (FanficChapter.id c) chapterId
                                     && String.eqb (FanficChapter.storyId c) storyId)
                           (FanficChapters (db w1)) in
       if forallb readable found
       then match found with
            | [] => Err (notFound "Chapter not found.")
            | chapter :: _ => Ok chapter
            end
       else Err RangeError,
       after (Select TFanficChapters) (db w1) w1)
  | (Err e, w1) => (Err e, w1)
  end.
Proof.
  unfold getOwnedChapter. unfold bind at 1.
  destruct (getOwnedStory storyId userId w) as [[story|e] w1]; [|reflexivity].
  unfold_monad. simpl.
  destruct (forallb readable _); [|reflexivity].
  destruct (filter _ (FanficChapters (db w1))); reflexivity.
Qed.

(** The helpers read: the store is the same after them, whatever they answer. *)
Lemma ensureFandomAccessible_db (fandomId userId : string) (w : World) :
  db (world (ensureFandomAccessible fandomId userId w)) = db w.
Proof. rewrite ensureFandomAccessible_run. reflexivity. Qed.

Lemma getOwnedStory_db (storyId userId : string) (w : World) :
  db (world (getOwnedStory storyId userId w)) = db w.
Proof. rewrite getOwnedStory_run. reflexivity. Qed.

Lemma getOwnedChapter_db (chapterId storyId userId : string) (w : World) :
  db (world (getOwnedChapter chapterId storyId userId w)) = db w.
Proof.
  rewrite getOwnedChapter_run, getOwnedStory_run.
  destruct (filter _ (FanficStories (db w))); reflexivity.
Qed.

(** ** Truthiness and strict inequality, in words *)

Lemma truthy_true (o : option string) :
  truthy o = true <-> exists s, o = Some s /\ s <> EmptyString.
Proof.
  destruct o as [s|]; simpl.
  - rewrite negb_true_iff, String.eqb_neq. split.
    + intros Hs. exists s. split; [reflexivity | exact Hs].
    + intros [s' [Heq Hs']]. injection Heq as ->. exact Hs'.
  - split; [discriminate | intros [s [Heq _]]; discriminate].
Qed.

Lemma strictNeq_true (o : option string) (b : string) :
  strictNeq o b = true <-> o <> Some b.
Proof.
  destruct o as [s|]; simpl.
  - rewrite negb_true_iff, String.eqb_neq. split.
    + intros Hs Heq. injection Heq as ->. apply Hs. reflexivity.
    + intros Hs Heq. apply Hs. rewrite Heq. reflexivity.
  - split; [discriminate | reflexivity].
Qed.

Lemma ownedByOther_true (fandom : Fandom.t) (userId : string) :
  UpdateFandom.ownedByOther fandom userId = true <-> someoneElses fandom userId.
Proof.
  unfold UpdateFandom.ownedByOther, someoneElses.
  rewrite andb_true_iff, truthy_true, strictNeq_true. split.
  - intros [[s [Hs Hne]] Hneq]. exists s. repeat split; try assumption.
    intros ->. apply Hneq. exact Hs.
  - intros [s [Hs [Hne Hneq]]]. split.
    + exists s. split; assumption.
    + rewrite Hs. intros Heq. injection Heq as ->. apply Hneq. reflexivity.
Qed.

Lemma ownedByOther_false (fandom : Fandom.t) (userId : string) :
  UpdateFandom.ownedByOther fandom userId = false <-> ~ someoneElses fandom userId.
Proof.
  rewrite <- ownedByOther_true.
  destruct (UpdateFandom.ownedByOther fandom userId); split; intros H;
    try reflexivity; try discriminate.
  exfalso. apply H. reflexivity.
Qed.

(** ** Lists of rows *)

Lemma filter_nil_iff {A : Type} (p : A -> bool) (l : list A) :
  filter p l = [] <-> forall x, In x l -> p x = false.
Proof.
  induction l as [|a l IH]; simpl.
  - split; [intros _ x [] | reflexivity].
  - destruct (p a) eqn:Hpa.
    + split; [discriminate|]. intros Hall.
      rewrite (Hall a (or_introl eq_refl)) in Hpa. discriminate.
    + rewrite IH. split.
      * intros Hall x [<-|Hin]; [exact Hpa | apply Hall; exact Hin].
      * intros Hall x Hin. apply Hall. right. exact Hin.
Qed.

Lemma filter_head {A : Type} (p : A -> bool) (l : list A) (x : A) (rest : list A) :
  filter p l = x :: rest -> In x l /\ p x = true.
Proof.
  intros Heq. apply filter_In. rewrite Heq. left. reflexivity.
Qed.

(** ** Fandom accessibility *)

(** C1, as amended. [ensureFandomAccessible] only reads. It fails with
    NOT_FOUND when no fandom has the given id. Otherwise, for the first fandom
    with that id, it fails with FORBIDDEN exactly when the owner is a
    non-empty string other than the caller and the fandom is not a system
    fandom, and returns the fandom in every other case: the caller's own
    fandoms, system fandoms, fandoms with a null owner, and fandoms whose
    owner is the empty string. *)
Theorem ensureFandomAccessible_cases (fandomId userId : string) (w : World) :
  let found := filter (fun f => String.eqb (Fandom.id f) fandomId) (Fandoms (db w)) in
  let run := ensureFandomAccessible fandomId userId w in
  db (world run) = db w /\
  ((forall f, In f (Fandoms (db w)) -> Fandom.id f <> fandomId) ->
   outcome run = Err (notFound "Fandom not found.")) /\
  (forall fandom rest, found = fandom :: rest ->
     (someoneElses fandom userId /\ Fandom.isSystem fandom = false ->
      outcome run = Err (forbidden "You do not have access to this fandom.")) /\
     (~ (someoneElses fandom userId /\ Fandom.isSystem fandom = false) ->
      outcome run = Ok fandom) /\
     (Fandom.userId fandom = Some userId -> outcome run = Ok fandom) /\
     (Fandom.isSystem fandom = true -> outcome run = Ok fandom) /\
     (Fandom.userId fandom = None -> outcome run = Ok fandom) /\
     (Fandom.userId fandom = Some EmptyString -> outcome run = Ok fandom)).
Proof.
  intros found run. subst run found.
  split; [apply ensureFandomAccessible_db|].
  rewrite ensureFandomAccessible_run. unfold outcome. simpl.
  split.
  - intros Hnone.
    assert (Hnil : filter (fun f => String.eqb (Fandom.id f) fandomId) (Fandoms (db w)) = []).
    { apply filter_nil_iff. intros f Hin. apply String.eqb_neq. apply Hnone. exact Hin. }
    rewrite Hnil. reflexivity.
  - intros fandom rest ->.
    change (truthy (Fandom.userId fandom) && strictNeq (Fandom.userId fandom) userId)
      with (UpdateFandom.ownedByOther fandom userId).
    assert (Hok : ~ (someoneElses fandom userId /\ Fandom.isSystem fandom = false) ->
                  (if UpdateFandom.ownedByOther fandom userId && negb (Fandom.isSystem fandom)
                   then Err (forbidden "You do not have access to this fandom.")
                   else Ok fandom) = Ok fandom).
    { intros Hnot.
      destruct (UpdateFandom.ownedByOther fandom userId) eqn:Hother; [|reflexivity].
      destruct (Fandom.isSystem fandom) eqn:Hsys; [reflexivity|].
      exfalso. apply Hnot. split; [apply ownedByOther_true; exact Hother | reflexivity]. }
    split; [|split; [exact Hok|repeat split]].
    + intros [Helse Hsys].
      apply ownedByOther_true in Helse. rewrite Helse, Hsys. reflexivity.
    + intros Hown. apply Hok. intros [[owner [Ho [_ Hneq]]] _].
      rewrite Hown in Ho. injection Ho as <-. apply Hneq. reflexivity.
    + intros Hsys. apply Hok. intros [_ Hno]. rewrite Hsys in Hno. discriminate.
    + intros Hnull. apply Hok. intros [[owner [Ho _]] _].
      rewrite Hnull in Ho. discriminate.
    + intros Hblank. apply Hok. intros [[owner [Ho [Hne _]]] _].
      rewrite Hblank in Ho. injection Ho as <-. apply Hne. reflexivity.
Qed.

Lemma ensureFandomAccessible_cases_witness :
  outcome (ensureFandomAccessible "f-missing" "u1" sampleWorld)
    = Err (notFound "Fandom not found.") /\
  outcome (ensureFandomAccessible "f-private" "u1" sampleWorld)
    = Err (forbidden "You do not have access to this fandom.") /\
  outcome (ensureFandomAccessible "f-own" "u1" sampleWorld) = Ok ownFandom /\
  outcome (ensureFandomAccessible "f-curated" "u1" sampleWorld) = Ok curatedFandom /\
  outcome (ensureFandomAccessible "f-system" "u1" sampleWorld) = Ok sharedSystemFandom.
Proof.
  split; [|split; [|split; [|split]]].
  - apply (ensureFandomAccessible_cases "f-missing" "u1" sampleWorld).
    simpl. intros f [<-|[<-|[<-|[<-|[<-|[]]]]]]; discriminate.
  - destruct (ensureFandomAccessible_cases "f-private" "u1" sampleWorld) as [_ [_ H]].
    destruct (H privateFandom [] eq_refl) as [Hforbidden _]. apply Hforbidden.
    split; [|reflexivity]. exists "u2". repeat split; discriminate.
  - destruct (ensureFandomAccessible_cases "f-own" "u1" sampleWorld) as [_ [_ H]].
    destruct (H ownFandom [] eq_refl) as [_ [_ [Hown _]]]. apply Hown. reflexivity.
  - destruct (ensureFandomAccessible_cases "f-curated" "u1" sampleWorld) as [_ [_ H]].
    destruct (H curatedFandom [] eq_refl) as [_ [_ [_ [Hsys _]]]]. apply Hsys. reflexivity.
  - destruct (ensureFandomAccessible_cases "f-system" "u1" sampleWorld) as [_ [_ H]].
    destruct (H sharedSystemFandom [] eq_refl) as [_ [_ [_ [_ [Hnull _]]]]].
    apply Hnull. reflexivity.
Defined.

(** C1, as stated, fails on a fandom whose owner is the empty string: the
    owner is not null and differs from the caller, the fandom is not a system
    fandom, and the check lets the caller through. *)
Lemma ensureFandomAccessible_blank_owner :
  Fandom.userId blankOwnerFandom <> None /\
  Fandom.userId blankOwnerFandom <> Some "u1" /\
  Fandom.isSystem blankOwnerFandom = false /\
  outcome (ensureFandomAccessible "f-blank" "u1" sampleWorld) = Ok blankOwnerFandom.
Proof.
  repeat split; try discriminate.
Qed.

(** ** Story ownership *)

(** C2. [getOwnedStory] issues one select on the stories and nothing else.
    It fails with NOT_FOUND when no story has the given id, and with the very
    same error, leaving the very same trace, when stories with that id exist
    but belong to other users: a second run against any store of the other
    kind answers the same. It returns a story exactly when a story with that
    id and that owner exists, and the story it returns is such a row. *)
Theorem getOwnedStory_cases (storyId userId : string) (w w' : World) :
  let absent (x : World) :=
    forall s, In s (FanficStories (db x)) -> FanficStory.id s <> storyId in
  let foreign (x : World) :=
    (exists s, In s (FanficStories (db x)) /\ FanficStory.id s = storyId) /\
    (forall s, In s (FanficStories (db x)) -> FanficStory.id s = storyId ->
               FanficStory.userId s <> userId) in
  let failure (x : World) :=
    (Err (notFound "Fanfic story not found."), after (Select TFanficStories) (db x) x) in
  (absent w -> getOwnedStory storyId userId w = failure w) /\
  (foreign w -> getOwnedStory storyId userId w = failure w) /\
  (absent w -> foreign w' ->
   outcome (getOwnedStory storyId userId w) = outcome (getOwnedStory storyId userId w')) /\
  ((exists story, outcome (getOwnedStory storyId userId w) = Ok story) <->
   (exists s, In s (FanficStories (db w)) /\
              FanficStory.id s = storyId /\ FanficStory.userId s = userId)) /\
  (forall story, outcome (getOwnedStory storyId userId w) = Ok story ->
     In story (FanficStories (db w)) /\
     FanficStory.id story = storyId /\ FanficStory.userId story = userId).
Proof.
  intros absent foreign failure.
  assert (Hmiss : forall x,
             (forall s, In s (FanficStories (db x)) -> FanficStory.id s = storyId ->
                        FanficStory.userId s <> userId) ->
             getOwnedStory storyId userId x = failure x).
  { intros x Hall. rewrite getOwnedStory_run. subst failure. simpl.
    replace (filter _ (FanficStories (db x))) with (@nil FanficStory.t); [reflexivity|].
    symmetry. apply filter_nil_iff. intros s Hin.
    destruct (String.eqb_spec (FanficStory.id s) storyId) as [Hid|Hid]; [|reflexivity].
    simpl. apply String.eqb_neq. apply Hall; assumption. }
  assert (Habsent : forall x, absent x -> getOwnedStory storyId userId x = failure x).
  { intros x Hx. apply Hmiss. intros s Hin Hid. exfalso. exact (Hx s Hin Hid). }
  assert (Hok : forall story, outcome (getOwnedStory storyId userId w) = Ok story ->
                  In story (FanficStories (db w)) /\
                  FanficStory.id story = storyId /\ FanficStory.userId story = userId).
  { intros story. rewrite getOwnedStory_run. unfold outcome. simpl.
    destruct (filter _ (FanficStories (db w))) as [|s rest] eqn:Hf; [discriminate|].
    intros Heq. injection Heq as <-.
    apply filter_head in Hf. destruct Hf as [Hin Hp].
    apply andb_true_iff in Hp. destruct Hp as [Hid Hu].
    apply String.eqb_eq in Hid. apply String.eqb_eq in Hu. repeat split; assumption. }
  split; [apply Habsent|].
  split; [intros [_ Hall]; apply Hmiss; exact Hall|].
  split.
  { intros Hw [_ Hw']. rewrite (Habsent w Hw), (Hmiss w' Hw'). reflexivity. }
  split; [|exact Hok].
  split.
  - intros [story Hrun]. exists story. apply Hok. exact Hrun.
  - intros [s [Hin [Hid Hu]]]. rewrite getOwnedStory_run. unfold outcome. simpl.
    destruct (filter _ (FanficStories (db w))) as [|s0 rest] eqn:Hf.
    + exfalso. rewrite filter_nil_iff in Hf. specialize (Hf s Hin). simpl in Hf.
      rewrite Hid, Hu, !String.eqb_refl in Hf. discriminate.
    + exists s0. reflexivity.
Qed.

Lemma getOwnedStory_cases_witness :
  getOwnedStory "s9" "u1" sampleWorld
    = (Err (notFound "Fanfic story not found."),
       after (Select TFanficStories) sampleDb sampleWorld) /\
  getOwnedStory "s2" "u1" sampleWorld
    = (Err (notFound "Fanfic story not found."),
       after (Select TFanficStories) sampleDb sampleWorld) /\
  (exists story, outcome (getOwnedStory "s1" "u1" sampleWorld) = Ok story /\
                 FanficStory.id story = "s1" /\ FanficStory.userId story = "u1").
Proof.
  split; [|split].
  - destruct (getOwnedStory_cases "s9" "u1" sampleWorld sampleWorld) as [Habsent _].
    apply Habsent. simpl. intros s [<-|[<-|[]]]; discriminate.
  - destruct (getOwnedStory_cases "s2" "u1" sampleWorld sampleWorld) as [_ [Hforeign _]].
    apply Hforeign. split.
    + exists story2. split; [right; left; reflexivity | reflexivity].
    + simpl. intros s [<-|[<-|[]]]; discriminate.
  - destruct (getOwnedStory_cases "s1" "u1" sampleWorld sampleWorld)
      as [_ [_ [_ [[_ Hexists] Hrow]]]].
    destruct Hexists as [story Hstory].
    + exists story1. repeat split. left. reflexivity.
    + exists story. split; [exact Hstory | apply (Hrow story Hstory)].
Defined.

(** ** updateFandom *)

Lemma requireUser_signedIn (userId : string) (w : World) :
  requireUser (signedIn userId) w = (Ok (User.mk userId), w).
Proof. reflexivity. Qed.

(** What the action does on an accepted input that names an existing fandom. *)
Lemma updateFandom_run (raw : JsVal) (i : UpdateFandom.Input) (userId : string)
    (w : World) (fandom : Fandom.t) (rest : list Fandom.t) :
  UpdateFandom.input raw = Some i ->
  filter (fun f => String.eqb (Fandom.id f) (UpdateFandom.id i)) (Fandoms (db w))
    = fandom :: rest ->
  let w1 := after (Select TFandoms) (db w) w in
  updateFandom raw (signedIn userId) w =
  if UpdateFandom.ownedByOther fandom userId
  then (Err (forbidden (if Fandom.isSystem fandom
                        then "You do not have access to update this fandom."
                        else "You do not have access to this fandom.")), w1)
  else (Ok (mkReply true (Some (UpdateFandom.assign i (clock w) fandom))),
        after (Update TFandoms)
              (mkDb (map (fun r => if String.eqb (Fandom.id r) (UpdateFandom.id i)
                                   then UpdateFandom.assign i (clock w) r else r)
                         (Fandoms (db w)))
                    (FanficStories (db w)) (FanficChapters (db w)))
              w1).
Proof.
  intros Hin Hfound w1. subst w1.
  unfold updateFandom, defineAction. rewrite Hin.
  unfold UpdateFandom.handler. unfold bind at 1. rewrite requireUser_signedIn.
  unfold bind at 1. rewrite ensureFandomAccessible_run. simpl User.id. rewrite Hfound.
  fold (UpdateFandom.ownedByOther fandom userId).
  destruct (UpdateFandom.ownedByOther fandom userId) eqn:Hother; simpl.
  - destruct (Fandom.isSystem fandom); simpl; [|reflexivity].
    rewrite Hother. reflexivity.
  - rewrite Hother. unfold_monad. simpl. rewrite Hfound. reflexivity.
Qed.

(** C3, as amended. A fandom with a null owner can be updated by every
    signed-in user, whether it is flagged system or not: on an accepted input
    naming it, [updateFandom] succeeds, returns the updated row and rewrites
    the rows with that id. The fandoms it refuses, with FORBIDDEN, are those
    whose owner is a non-empty string other than the caller, again whatever
    the system flag says. *)
Theorem updateFandom_ownerless_mutable (raw : JsVal) (i : UpdateFandom.Input)
    (userId : string) (w : World) (fandom : Fandom.t) (rest : list Fandom.t) :
  UpdateFandom.input raw = Some i ->
  filter (fun f => String.eqb (Fandom.id f) (UpdateFandom.id i)) (Fandoms (db w))
    = fandom :: rest ->
  let run := updateFandom raw (signedIn userId) w in
  (Fandom.userId fandom = None ->
   outcome run = Ok (mkReply true (Some (UpdateFandom.assign i (clock w) fandom))) /\
   Fandoms (db (world run)) =
     map (fun r => if String.eqb (Fandom.id r) (UpdateFandom.id i)
                   then UpdateFandom.assign i (clock w) r else r)
         (Fandoms (db w))) /\
  (someoneElses fandom userId <->
   exists message, outcome run = Err (forbidden message)).
Proof.
  intros Hin Hfound run. subst run.
  rewrite (updateFandom_run raw userId w Hin Hfound).
  split.
  - intros Hnull.
    assert (Hother : UpdateFandom.ownedByOther fandom userId = false).
    { unfold UpdateFandom.ownedByOther. rewrite Hnull. reflexivity. }
    rewrite Hother. split; reflexivity.
  - destruct (UpdateFandom.ownedByOther fandom userId) eqn:Hother.
    + split; [|intros _; apply ownedByOther_true; exact Hother].
      intros _. eexists. reflexivity.
    + split.
      * intros Helse. apply ownedByOther_true in Helse. congruence.
      * intros [message Hrun]. discriminate.
Qed.

Lemma updateFandom_ownerless_mutable_witness :
  outcome (updateFandom renameSystemFandom (signedIn "u1") sampleWorld)
    = Ok (mkReply true
            (Some (Fandom.mk "f-system" None "Baker Street" (Some "books") None true
                             13%Z (clock sampleWorld)))).
Proof.
  destruct (updateFandom_ownerless_mutable
              renameSystemFandom
              (i := UpdateFandom.mk "f-system" (Some "Baker Street") None None)
              "u1" sampleWorld (fandom := sharedSystemFandom) (rest := [])
              eq_refl eq_refl) as [Hnull _].
  destruct (Hnull eq_refl) as [Hrun _]. exact Hrun.
Defined.

(** C3, as stated, fails: a system fandom without an owner is renamed by an
    ordinary signed-in user, and the renamed row is in the store afterwards. *)
Lemma updateFandom_system_fandom_renamed :
  Fandom.userId sharedSystemFandom = None /\
  Fandom.isSystem sharedSystemFandom = true /\
  In sharedSystemFandom (Fandoms (db sampleWorld)) /\
  let run := updateFandom renameSystemFandom (signedIn "u1") sampleWorld in
  let renamed := Fandom.mk "f-system" None "Baker Street" (Some "books") None true
                           13%Z (clock sampleWorld) in
  outcome run = Ok (mkReply true (Some renamed)) /\
  In renamed (Fandoms (db (world run))) /\
  ~ In sharedSystemFandom (Fandoms (db (world run))).
Proof.
  repeat split.
  - simpl. tauto.
  - simpl. tauto.
  - simpl. intros [H|[H|[H|[H|[H|[]]]]]]; discriminate.
Qed.

(** C4, as amended. The second guard repeats the accessibility check only on
    fandoms that are not flagged system: for such a fandom, whenever
    [ensureFandomAccessible] returns it, the guard lets it pass. On a system
    fandom whose owner is a non-empty string other than the caller the
    accessibility check succeeds and the guard is what refuses the update. *)
Theorem updateFandom_guard_after_access (fandomId userId : string) (w : World)
    (fandom : Fandom.t) :
  outcome (ensureFandomAccessible fandomId userId w) = Ok fandom ->
  (Fandom.isSystem fandom = false ->
   UpdateFandom.ownedByOther fandom userId = false) /\
  (Fandom.isSystem fandom = true -> someoneElses fandom userId ->
   UpdateFandom.ownedByOther fandom userId = true /\
   forall raw i, UpdateFandom.input raw = Some i -> UpdateFandom.id i = fandomId ->
     outcome (updateFandom raw (signedIn userId) w)
       = Err (forbidden "You do not have access to update this fandom.")).
Proof.
  rewrite ensureFandomAccessible_run. unfold outcome. simpl.
  destruct (filter _ (Fandoms (db w))) as [|first rest] eqn:Hfound; [discriminate|].
  fold (UpdateFandom.ownedByOther first userId).
  destruct (UpdateFandom.ownedByOther first userId && negb (Fandom.isSystem first))
    eqn:Hcheck; [discriminate|].
  intros Heq. injection Heq as <-. split.
  - intros Hsys. rewrite Hsys in Hcheck. simpl in Hcheck.
    rewrite andb_true_r in Hcheck. exact Hcheck.
  - intros Hsys Helse. apply ownedByOther_true in Helse. split; [exact Helse|].
    intros raw i Hin Hid. subst fandomId.
    rewrite (updateFandom_run raw userId w Hin Hfound). simpl.
    rewrite Helse, Hsys. reflexivity.
Qed.

Lemma updateFandom_guard_after_access_witness :
  UpdateFandom.ownedByOther ownFandom "u1" = false /\
  outcome (updateFandom renameCuratedFandom (signedIn "u1") sampleWorld)
    = Err (forbidden "You do not have access to update this fandom.").
Proof.
  split.
  - destruct (updateFandom_guard_after_access "f-own" "u1" sampleWorld
                (fandom := ownFandom) eq_refl) as [Hplain _].
    apply Hplain. reflexivity.
  - destruct (updateFandom_guard_after_access "f-curated" "u1" sampleWorld
                (fandom := curatedFandom) eq_refl) as [_ Hsystem].
    destruct (Hsystem eq_refl) as [_ Hrefused].
    + exists "admin". repeat split; discriminate.
    + apply (Hrefused renameCuratedFandom
                      (UpdateFandom.mk "f-curated" (Some "Starfleet") None None));
        reflexivity.
Defined.

(** C4, as stated, fails on a system fandom owned by someone else: the
    accessibility check returns it to the caller, the second guard rejects
    it, and the update is refused by the guard's own error. *)
Lemma updateFandom_guard_not_redundant :
  outcome (ensureFandomAccessible "f-curated" "u1" sampleWorld) = Ok curatedFandom /\
  UpdateFandom.ownedByOther curatedFandom "u1" = true /\
  outcome (updateFandom renameCuratedFandom (signedIn "u1") sampleWorld)
    = Err (forbidden "You do not have access to update this fandom.").
Proof.
  repeat split.
Qed.

(** ** Stories: what the schemas let through *)

(** A [null] is not a string and not [undefined]. *)
Lemma optional_string_null : z.optional z.string_ JNull = None.
Proof. reflexivity. Qed.

Lemma updateFanficStory_null_fandomId (raw : JsVal) (context : ActionAPIContext)
    (w : World) :
  prop raw "fandomId" = JNull ->
  updateFanficStory raw context w = (Err ActionInputError, w).
Proof.
  intros Hnull. unfold updateFanficStory, defineAction.
  unfold UpdateFanficStory.input, z.refine, UpdateFanficStory.object.
  rewrite Hnull, optional_string_null.
  destruct (z.isObject raw); [|reflexivity].
  destruct (z.string_min1 (prop raw "id")); reflexivity.
Qed.

(** A failed accessibility check, as a run. *)
Lemma ensureFandomAccessible_failure (fandomId userId : string) (w : World) (e : Error) :
  outcome (ensureFandomAccessible fandomId userId w) = Err e ->
  ensureFandomAccessible fandomId userId w = (Err e, after (Select TFandoms) (db w) w).
Proof.
  rewrite ensureFandomAccessible_run. unfold outcome. simpl. intros ->. reflexivity.
Qed.

(** On an owned story, the handler does look at a string [fandomId] before
    it writes: a fandom the caller may not use fails the update and leaves
    the store as it was. *)
Lemma updateFanficStory_checks_fandom (i : UpdateFanficStory.Input)
    (userId fandomId : string) (w : World) (story : FanficStory.t) (e : Error) :
  UpdateFanficStory.fandomId i = Some (Some fandomId) ->
  outcome (getOwnedStory (UpdateFanficStory.id i) userId w) = Ok story ->
  outcome (ensureFandomAccessible fandomId userId
             (after (Select TFanficStories) (db w) w)) = Err e ->
  UpdateFanficStory.handler i (signedIn userId) w
    = (Err e, after (Select TFandoms) (db w) (after (Select TFanficStories) (db w) w)).
Proof.
  intros Hf Hstory Hdenied.
  apply ensureFandomAccessible_failure in Hdenied.
  unfold UpdateFanficStory.handler. unfold bind at 1. rewrite requireUser_signedIn.
  unfold bind at 1. simpl User.id.
  rewrite getOwnedStory_run in Hstory |- *. unfold outcome in Hstory. simpl in Hstory.
  destruct (filter _ (FanficStories (db w))) as [|s rest]; [discriminate|].
  rewrite Hf. unfold bind at 1. unfold bind at 1.
  rewrite Hdenied. reflexivity.
Qed.

(** C5: evaluation at the input that clears the association. The schema
    refuses [fandomId: null] before the handler runs, and no statement
    reaches the store; the handler itself, were it handed that input, would
    skip the fandom check and write a null [fandomId]. *)
Theorem updateFanficStory_null_fandomId_rejected :
  updateFanficStory clearFandomOfStory1 (signedIn "u1") sampleWorld
    = (Err ActionInputError, sampleWorld) /\
  let i := UpdateFanficStory.mk "s1" (Some None) None None None None None None None in
  let run := UpdateFanficStory.handler i (signedIn "u1") sampleWorld in
  outcome run
    = Ok (mkReply true
            (Some (FanficStory.mk "s1" "u1" None "New Beginnings" (Some "After the war")
                     (Some "PG-13") None None (Some "idea") None 20%Z
                     (clock sampleWorld)))) /\
  log (world run) = [Select TFanficStories; Update TFanficStories].
Proof.
  split.
  - apply updateFanficStory_null_fandomId. reflexivity.
  - repeat split.
Qed.

(** [createFanficStory] looks at a non-empty [fandomId] before it inserts:
    when the fandom is missing or not the caller's to use, the action fails
    with the error of the check, after that one select and with the store as
    before. *)
Lemma createFanficStory_checks_fandom (raw : JsVal) (i : CreateFanficStory.Input)
    (userId fandomId : string) (w : World) (e : Error) :
  CreateFanficStory.input raw = Some i ->
  CreateFanficStory.fandomId i = Some fandomId ->
  fandomId <> EmptyString ->
  outcome (ensureFandomAccessible fandomId userId w) = Err e ->
  createFanficStory raw (signedIn userId) w
    = (Err e, after (Select TFandoms) (db w) w).
Proof.
  intros Hin Hf Hne Hdenied.
  apply ensureFandomAccessible_failure in Hdenied.
  unfold createFanficStory, defineAction. rewrite Hin.
  unfold CreateFanficStory.handler. unfold bind at 1. rewrite requireUser_signedIn.
  rewrite Hf. simpl truthy. apply String.eqb_neq in Hne. rewrite Hne. simpl negb.
  cbv iota. unfold bind at 1. unfold bind at 1. simpl User.id.
  rewrite Hdenied. reflexivity.
Qed.

(** C6: evaluation at an empty [fandomId]. The handler does not run the
    accessibility check on it: the only statement it issues is the insert.
    On a store where no fandom has the empty id, the check would have
    answered NOT_FOUND; the action fails instead with the store's refusal of
    the dangling reference. On a store where the empty id is a private
    fandom of another user, the check would have answered FORBIDDEN; the
    action succeeds and the story is stored under that fandom. *)
Theorem createFanficStory_blank_fandomId_unchecked :
  (forall f, In f (Fandoms (db sampleWorld)) -> Fandom.id f <> EmptyString) /\
  (outcome (ensureFandomAccessible EmptyString "u1" sampleWorld)
     = Err (notFound "Fandom not found.")) /\
  (createFanficStory storyWithBlankFandom (signedIn "u1") sampleWorld
     = (Err StoreError, after (Insert TFanficStories) sampleDb sampleWorld)) /\
  (outcome (ensureFandomAccessible EmptyString "u1" blankIdWorld)
     = Err (forbidden "You do not have access to this fandom.")) /\
  let run := createFanficStory storyWithBlankFandom (signedIn "u1") blankIdWorld in
  let story := FanficStory.mk (entropy blankIdWorld) "u1" (Some EmptyString) "Untethered"
                 None None None None None None
                 (clock blankIdWorld) (clock blankIdWorld) in
  outcome run = Ok (mkReply true (Some story)) /\
  log (world run) = [Insert TFanficStories] /\
  FanficStories (db (world run)) = [story2; story].
Proof.
  split.
  - simpl. intros f [<-|[<-|[<-|[<-|[<-|[]]]]]]; discriminate.
  - repeat split.
Qed.

(** The schemas of [createFanficStory] and of [updateFandom] refuse an empty
    title, respectively an empty name, before any statement is issued. *)
Lemma createFanficStory_blank_title (raw : JsVal) (context : ActionAPIContext)
    (w : World) :
  prop raw "title" = JStr EmptyString ->
  createFanficStory raw context w = (Err ActionInputError, w).
Proof.
  intros Hblank. unfold createFanficStory, defineAction, CreateFanficStory.input.
  rewrite Hblank. simpl z.string_min1.
  destruct (z.isObject raw); [|reflexivity].
  destruct (z.optional z.string_ (prop raw "fandomId")); reflexivity.
Qed.

Lemma updateFandom_blank_name (raw : JsVal) (context : ActionAPIContext) (w : World) :
  prop raw "name" = JStr EmptyString ->
  updateFandom raw context w = (Err ActionInputError, w).
Proof.
  intros Hblank. unfold updateFandom, defineAction.
  unfold UpdateFandom.input, z.refine, UpdateFandom.object.
  rewrite Hblank.
  destruct (z.isObject raw); [|reflexivity].
  destruct (z.string_min1 (prop raw "id")); reflexivity.
Qed.

(** C7: evaluation at an empty title. [updateFanficStory] accepts it from
    the owner of the story and the stored row ends up with an empty title,
    where [createFanficStory] refuses the same title. *)
Theorem updateFanficStory_blank_title_written :
  let run := updateFanficStory blankTitleForStory1 (signedIn "u1") sampleWorld in
  let blanked := FanficStory.mk "s1" "u1" (Some "f-own") EmptyString (Some "After the war")
                   (Some "PG-13") None None (Some "idea") None 20%Z
                   (clock sampleWorld) in
  outcome run = Ok (mkReply true (Some blanked)) /\
  FanficStories (db (world run)) = [blanked; story2] /\
  FanficStory.title blanked = EmptyString /\
  createFanficStory (JObj [("title", JStr EmptyString)]) (signedIn "u1") sampleWorld
    = (Err ActionInputError, sampleWorld).
Proof.
  repeat split.
Qed.

(** ** Partial updates *)

Lemma Forall2_map_self {A : Type} (P : A -> A -> Prop) (f : A -> A) (l : list A) :
  (forall x, In x l -> P x (f x)) -> Forall2 P l (map f l).
Proof.
  induction l as [|a l IH]; intros Hall; simpl.
  - constructor.
  - constructor.
    + apply Hall. left. reflexivity.
    + apply IH. intros x Hin. apply Hall. right. exact Hin.
Qed.

Lemma patchedById_update {R : Type} (rowId : R -> string) (id : string)
    (patched : R -> R -> Prop) (assign : R -> R) (l : list R) :
  (forall r, patched r (assign r)) ->
  patchedById rowId id patched l
    (map (fun r => if String.eqb (rowId r) id then assign r else r) l).
Proof.
  intros Hassign. apply Forall2_map_self. intros r _.
  destruct (String.eqb (rowId r) id); [apply Hassign | reflexivity].
Qed.

Lemma returnsPatched_update {R : Type} (rowId : R -> string) (id : string)
    (patched : R -> R -> Prop) (assign : R -> R) (l : list R) (first : R) (rest : list R) :
  (forall r, patched r (assign r)) ->
  filter (fun r => String.eqb (rowId r) id) l = first :: rest ->
  returnsPatched rowId id patched l
    (hd_error (map assign (filter (fun r => String.eqb (rowId r) id) l))).
Proof.
  intros Hassign Hfound. rewrite Hfound. simpl.
  apply filter_head in Hfound. destruct Hfound as [Hin Hid].
  exists first, (assign first). repeat split; try assumption.
  - apply String.eqb_eq. exact Hid.
  - apply Hassign.
Qed.

Lemma fandom_assign_patched (i : UpdateFandom.Input) (now : Date) (r : Fandom.t) :
  fandomPatched i now r (UpdateFandom.assign i now r).
Proof.
  unfold fandomPatched, kept, UpdateFandom.assign. simpl.
  repeat split; try (intros ->; reflexivity); intros v ->; reflexivity.
Qed.

Lemma story_assign_patched (i : UpdateFanficStory.Input) (now : Date) (r : FanficStory.t) :
  storyPatched i now r (UpdateFanficStory.assign i now r).
Proof.
  unfold storyPatched, kept, UpdateFanficStory.assign. simpl.
  repeat split; try (intros ->; reflexivity); intros v ->; reflexivity.
Qed.

Lemma chapter_assign_patched (i : UpdateFanficChapter.Input) (now : Date)
    (r : FanficChapter.t) :
  chapterPatched i now r (UpdateFanficChapter.assign i now r).
Proof.
  unfold chapterPatched, kept, UpdateFanficChapter.assign. simpl.
  repeat split; try (intros ->; reflexivity); intros v ->; reflexivity.
Qed.

Lemma requireUser_cases (context : ActionAPIContext) (w : World) :
  (exists user, requireUser context w = (Ok user, w)) \/
  requireUser context w
    = (Err (ActionError UNAUTHORIZED "You must be signed in to perform this action."), w).
Proof.
  unfold requireUser. destruct (locals context) as [l|]; [|right; reflexivity].
  destruct (App.user l) as [u|]; [left; exists u; reflexivity | right; reflexivity].
Qed.

(** A successful run of an update, taken apart: the input was accepted, a
    row with the id was there, the table was rewritten by the assignment and
    the reply carries the first rewritten row. *)
Lemma updateFandom_success (raw : JsVal) (context : ActionAPIContext) (w : World)
    (reply : Reply (option Fandom.t)) :
  outcome (updateFandom raw context w) = Ok reply ->
  exists i first rest,
    UpdateFandom.input raw = Some i /\
    filter (fun r => String.eqb (Fandom.id r) (UpdateFandom.id i)) (Fandoms (db w))
      = first :: rest /\
    db (world (updateFandom raw context w))
      = mkDb (map (fun r => if String.eqb (Fandom.id r) (UpdateFandom.id i)
                            then UpdateFandom.assign i (clock w) r else r)
                  (Fandoms (db w)))
             (FanficStories (db w)) (FanficChapters (db w)) /\
    data reply
      = hd_error (map (UpdateFandom.assign i (clock w))
                      (filter (fun r => String.eqb (Fandom.id r) (UpdateFandom.id i))
                              (Fandoms (db w)))).
Proof.
  destruct (updateFandom raw context w) as [res w'] eqn:Hrun.
  unfold outcome, world. simpl. intros ->.
  unfold updateFandom, defineAction in Hrun.
  destruct (UpdateFandom.input raw) as [i|]; [|discriminate].
  unfold UpdateFandom.handler in Hrun. unfold bind at 1 in Hrun.
  destruct (requireUser_cases context w) as [[user Hu]|Hu]; rewrite Hu in Hrun;
    [|discriminate].
  unfold bind at 1 in Hrun. rewrite ensureFandomAccessible_run in Hrun.
  destruct (filter _ (Fandoms (db w))) as [|first rest] eqn:Hfound; [discriminate|].
  destruct (truthy _ && strictNeq _ _ && negb _); [discriminate|].
  destruct (UpdateFandom.ownedByOther first (User.id user)); [discriminate|].
  unfold_monad. simpl in Hrun. injection Hrun as <- <-.
  exists i, first, rest. rewrite Hfound. repeat split.
Qed.

Lemma updateFanficStory_success (raw : JsVal) (context : ActionAPIContext) (w : World)
    (reply : Reply (option FanficStory.t)) :
  outcome (updateFanficStory raw context w) = Ok reply ->
  exists i first rest,
    UpdateFanficStory.input raw = Some i /\
    filter (fun r => String.eqb (FanficStory.id r) (UpdateFanficStory.id i))
           (FanficStories (db w)) = first :: rest /\
    db (world (updateFanficStory raw context w))
      = mkDb (Fandoms (db w))
             (map (fun r => if String.eqb (FanficStory.id r) (UpdateFanficStory.id i)
                            then UpdateFanficStory.assign i (clock w) r else r)
                  (FanficStories (db w)))
             (FanficChapters (db w)) /\
    data reply
      = hd_error (map (UpdateFanficStory.assign i (clock w))
                      (filter (fun r => String.eqb (FanficStory.id r) (UpdateFanficStory.id i))
                              (FanficStories (db w)))).
Proof.
  destruct (updateFanficStory raw context w) as [res w'] eqn:Hrun.
  unfold outcome, world. simpl. intros ->.
  unfold updateFanficStory, defineAction in Hrun.
  destruct (UpdateFanficStory.input raw) as [i|]; [|discriminate].
  unfold UpdateFanficStory.handler in Hrun. unfold bind at 1 in Hrun.
  destruct (requireUser_cases context w) as [[user Hu]|Hu]; rewrite Hu in Hrun;
    [|discriminate].
  unfold bind at 1 in Hrun. rewrite getOwnedStory_run in Hrun.
  destruct (filter _ (FanficStories (db w))) as [|owned others] eqn:Howned;
    [discriminate|].
  assert (Hfound : exists first rest,
             filter (fun r => String.eqb (FanficStory.id r) (UpdateFanficStory.id i))
                    (FanficStories (db w)) = first :: rest).
  { destruct (filter (fun r => String.eqb (FanficStory.id r) (UpdateFanficStory.id i))
                     (FanficStories (db w))) as [|first rest] eqn:Hid.
    - exfalso. apply filter_head in Howned. destruct Howned as [Hin Hp].
      rewrite filter_nil_iff in Hid. specialize (Hid owned Hin). simpl in Hid.
      rewrite Hid in Hp. discriminate.
    - exists first, rest. reflexivity. }
  destruct Hfound as [first [rest Hfound]].
  exists i, first, rest.
  unfold bind at 1 in Hrun.
  destruct (UpdateFanficStory.fandomId i) as [[f|]|].
  - unfold bind at 1 in Hrun. rewrite ensureFandomAccessible_run in Hrun.
    simpl in Hrun.
    destruct (filter _ (Fandoms (db w))) as [|fandom fs]; [discriminate|].
    destruct (truthy _ && strictNeq _ _ && negb _); [discriminate|].
    unfold_monad. simpl in Hrun. injection Hrun as <- <-.
    rewrite Hfound. repeat split.
  - unfold_monad. simpl in Hrun. injection Hrun as <- <-.
    rewrite Hfound. repeat split.
  - unfold_monad. simpl in Hrun. injection Hrun as <- <-.
    rewrite Hfound. repeat split.
Qed.

Lemma updateFanficChapter_success (raw : JsVal) (context : ActionAPIContext) (w : World)
    (reply : Reply (option FanficChapter.t)) :
  outcome (updateFanficChapter raw context w) = Ok reply ->
  exists i first rest,
    UpdateFanficChapter.input raw = Some i /\
    filter (fun r => String.eqb (FanficChapter.id r) (UpdateFanficChapter.id i))
           (FanficChapters (db w)) = first :: rest /\
    db (world (updateFanficChapter raw context w))
      = mkDb (Fandoms (db w)) (FanficStories (db w))
             (map (fun r => if String.eqb (FanficChapter.id r) (UpdateFanficChapter.id i)
                            then UpdateFanficChapter.assign i (clock w) r else r)
                  (FanficChapters (db w))) /\
    data reply
      = hd_error (map (UpdateFanficChapter.assign i (clock w))
                      (filter (fun r => String.eqb (FanficChapter.id r)
                                                   (UpdateFanficChapter.id i))
                              (FanficChapters (db w)))).
Proof.
  destruct (updateFanficChapter raw context w) as [res w'] eqn:Hrun.
  unfold outcome, world. simpl. intros ->.
  unfold updateFanficChapter, defineAction in Hrun.
  destruct (UpdateFanficChapter.input raw) as [i|]; [|discriminate].
  unfold UpdateFanficChapter.handler in Hrun. unfold bind at 1 in Hrun.
  destruct (requireUser_cases context w) as [[user Hu]|Hu]; rewrite Hu in Hrun;
    [|discriminate].
  unfold bind at 1 in Hrun. rewrite getOwnedChapter_run, getOwnedStory_run in Hrun.
  destruct (filter _ (FanficStories (db w))) as [|story stories]; [discriminate|].
  cbv zeta in Hrun. simpl db in Hrun.
  destruct (forallb readable
              (filter (fun c => String.eqb (FanficChapter.id c) (UpdateFanficChapter.id i)
                                && String.eqb (FanficChapter.storyId c)
                                              (UpdateFanficChapter.storyId i))
                      (FanficChapters (db w)))); [|discriminate].
  destruct (filter (fun c => String.eqb (FanficChapter.id c) (UpdateFanficChapter.id i)
                             && String.eqb (FanficChapter.storyId c)
                                           (UpdateFanficChapter.storyId i))
                   (FanficChapters (db w))) as [|owned others] eqn:Howned;
    [discriminate|].
  assert (Hfound : exists first rest,
             filter (fun r => String.eqb (FanficChapter.id r) (UpdateFanficChapter.id i))
                    (FanficChapters (db w)) = first :: rest).
  { destruct (filter (fun r => String.eqb (FanficChapter.id r) (UpdateFanficChapter.id i))
                     (FanficChapters (db w))) as [|first rest] eqn:Hid.
    - exfalso. apply filter_head in Howned. destruct Howned as [Hin Hp].
      rewrite filter_nil_iff in Hid. specialize (Hid owned Hin). simpl in Hid.
      rewrite Hid in Hp. discriminate.
    - exists first, rest. reflexivity. }
  destruct Hfound as [first [rest Hfound]].
  exists i, first, rest.
  unfold_monad. simpl in Hrun.
  destruct (forallb readable _); [|discriminate].
  injection Hrun as <- <-.
  rewrite Hfound. repeat split.
Qed.

Lemma getOwnedStory_finds (storyId userId : string) (w : World) :
  ownsStory (db w) storyId userId ->
  exists story, getOwnedStory storyId userId w
                  = (Ok story, after (Select TFanficStories) (db w) w).
Proof.
  intros [s [Hin [Hid Hu]]]. rewrite getOwnedStory_run.
  destruct (filter _ (FanficStories (db w))) as [|story rest] eqn:Hf.
  - exfalso. rewrite filter_nil_iff in Hf. specialize (Hf s Hin). simpl in Hf.
    rewrite Hid, Hu, !String.eqb_refl in Hf. discriminate.
  - exists story. reflexivity.
Qed.

(** Every successful run leaves the table patched. *)
Lemma updateFandom_frame (raw : JsVal) (context : ActionAPIContext) (w : World)
    (reply : Reply (option Fandom.t)) :
  outcome (updateFandom raw context w) = Ok reply ->
  exists i, UpdateFandom.input raw = Some i /\
            fandomsUpdated i w (db (world (updateFandom raw context w))) reply.
Proof.
  intros Hok.
  destruct (updateFandom_success raw context w Hok)
    as [i [first [rest [Hin [Hfound [Hdb Hreply]]]]]].
  exists i. split; [exact Hin|]. unfold fandomsUpdated. rewrite Hdb, Hreply. simpl.
  repeat split.
  - apply patchedById_update. apply fandom_assign_patched.
  - eapply returnsPatched_update; [apply fandom_assign_patched | exact Hfound].
Qed.

Lemma updateFanficStory_frame (raw : JsVal) (context : ActionAPIContext) (w : World)
    (reply : Reply (option FanficStory.t)) :
  outcome (updateFanficStory raw context w) = Ok reply ->
  exists i, UpdateFanficStory.input raw = Some i /\
            storiesUpdated i w (db (world (updateFanficStory raw context w))) reply.
Proof.
  intros Hok.
  destruct (updateFanficStory_success raw context w Hok)
    as [i [first [rest [Hin [Hfound [Hdb Hreply]]]]]].
  exists i. split; [exact Hin|]. unfold storiesUpdated. rewrite Hdb, Hreply. simpl.
  repeat split.
  - apply patchedById_update. apply story_assign_patched.
  - eapply returnsPatched_update; [apply story_assign_patched | exact Hfound].
Qed.

Lemma updateFanficChapter_frame (raw : JsVal) (context : ActionAPIContext) (w : World)
    (reply : Reply (option FanficChapter.t)) :
  outcome (updateFanficChapter raw context w) = Ok reply ->
  exists i, UpdateFanficChapter.input raw = Some i /\
            chaptersUpdated i w (db (world (updateFanficChapter raw context w))) reply.
Proof.
  intros Hok.
  destruct (updateFanficChapter_success raw context w Hok)
    as [i [first [rest [Hin [Hfound [Hdb Hreply]]]]]].
  exists i. split; [exact Hin|]. unfold chaptersUpdated. rewrite Hdb, Hreply. simpl.
  repeat split.
  - apply patchedById_update. apply chapter_assign_patched.
  - eapply returnsPatched_update; [apply chapter_assign_patched | exact Hfound].
Qed.

(** The conditions under which an update goes through. *)
Lemma updateFandom_enabled (raw : JsVal) (i : UpdateFandom.Input) (userId : string)
    (w : World) (fandom : Fandom.t) (rest : list Fandom.t) :
  UpdateFandom.input raw = Some i ->
  filter (fun f => String.eqb (Fandom.id f) (UpdateFandom.id i)) (Fandoms (db w))
    = fandom :: rest ->
  ~ someoneElses fandom userId ->
  outcome (updateFandom raw (signedIn userId) w)
    = Ok (mkReply true (Some (UpdateFandom.assign i (clock w) fandom))).
Proof.
  intros Hin Hfound Hmay. rewrite (updateFandom_run raw userId w Hin Hfound).
  apply ownedByOther_false in Hmay. rewrite Hmay. reflexivity.
Qed.

Lemma updateFanficStory_enabled (raw : JsVal) (i : UpdateFanficStory.Input)
    (userId : string) (w : World) :
  UpdateFanficStory.input raw = Some i ->
  ownsStory (db w) (UpdateFanficStory.id i) userId ->
  fandomUsable i userId (db w) ->
  exists reply, outcome (updateFanficStory raw (signedIn userId) w) = Ok reply.
Proof.
  intros Hin Howns Hfandom.
  destruct (getOwnedStory_finds w Howns) as [story Hstory].
  unfold updateFanficStory, defineAction. rewrite Hin.
  unfold UpdateFanficStory.handler.
  unfold bind at 1. rewrite requireUser_signedIn. simpl User.id.
  unfold bind at 1. rewrite Hstory.
  unfold bind at 1.
  destruct (UpdateFanficStory.fandomId i) as [[f|]|] eqn:Hf.
  - destruct (Hfandom f Hf) as [fandom [rest [Hfound Hmay]]].
    unfold bind at 1. rewrite ensureFandomAccessible_run. simpl db. rewrite Hfound.
    fold (UpdateFandom.ownedByOther fandom userId).
    assert (Hcheck : UpdateFandom.ownedByOther fandom userId
                     && negb (Fandom.isSystem fandom) = false).
    { destruct (UpdateFandom.ownedByOther fandom userId) eqn:Hother; [|reflexivity].
      destruct (Fandom.isSystem fandom) eqn:Hsys; [reflexivity|].
      exfalso. apply Hmay. split; [apply ownedByOther_true; exact Hother | reflexivity]. }
    rewrite Hcheck. eexists. reflexivity.
  - eexists. reflexivity.
  - eexists. reflexivity.
Qed.

Lemma updateFanficChapter_enabled (raw : JsVal) (i : UpdateFanficChapter.Input)
    (userId : string) (w : World) :
  UpdateFanficChapter.input raw = Some i ->
  ownsStory (db w) (UpdateFanficChapter.storyId i) userId ->
  (exists c, In c (FanficChapters (db w)) /\
             FanficChapter.id c = UpdateFanficChapter.id i /\
             FanficChapter.storyId c = UpdateFanficChapter.storyId i) ->
  (forall c, In c (FanficChapters (db w)) ->
             FanficChapter.id c = UpdateFanficChapter.id i ->
             safeInteger (FanficChapter.orderIndex c) = true) ->
  (forall o, UpdateFanficChapter.orderIndex i = Some o -> safeInteger o = true) ->
  exists reply, outcome (updateFanficChapter raw (signedIn userId) w) = Ok reply.
Proof.
  intros Hin Howns [c [Hc [Hcid Hcs]]] Hstored Hgiven.
  destruct (getOwnedStory_finds w Howns) as [story Hstory].
  unfold updateFanficChapter, defineAction. rewrite Hin.
  unfold UpdateFanficChapter.handler.
  unfold bind at 1. rewrite requireUser_signedIn. simpl User.id.
  unfold bind at 1. rewrite getOwnedChapter_run, Hstory. cbv zeta. simpl db.
  assert (Hread : forallb readable
            (filter (fun c => String.eqb (FanficChapter.id c) (UpdateFanficChapter.id i)
                              && String.eqb (FanficChapter.storyId c)
                                            (UpdateFanficChapter.storyId i))
                    (FanficChapters (db w))) = true).
  { apply forallb_forall. intros x Hx. apply filter_In in Hx. destruct Hx as [Hx Hp].
    apply andb_true_iff in Hp. destruct Hp as [Hxid _]. apply String.eqb_eq in Hxid.
    apply (Hstored x Hx Hxid). }
  rewrite Hread.
  destruct (filter (fun c => String.eqb (FanficChapter.id c) (UpdateFanficChapter.id i)
                             && String.eqb (FanficChapter.storyId c)
                                           (UpdateFanficChapter.storyId i))
                   (FanficChapters (db w))) as [|owned others] eqn:Howned.
  { exfalso. rewrite filter_nil_iff in Howned. specialize (Howned c Hc). simpl in Howned.
    rewrite Hcid, Hcs, !String.eqb_refl in Howned. discriminate. }
  unfold_monad. simpl.
  assert (Hback : forallb readable
            (map (UpdateFanficChapter.assign i (clock w))
                 (filter (fun r => String.eqb (FanficChapter.id r) (UpdateFanficChapter.id i))
                         (FanficChapters (db w)))) = true).
  { apply forallb_forall. intros x Hx. apply in_map_iff in Hx.
    destruct Hx as [r [<- Hr]]. apply filter_In in Hr. destruct Hr as [Hr Hrid].
    apply String.eqb_eq in Hrid. unfold readable, UpdateFanficChapter.assign. simpl.
    destruct (UpdateFanficChapter.orderIndex i) as [o|] eqn:Ho.
    - apply (Hgiven o eq_refl).
    - apply (Hstored r Hr Hrid). }
  rewrite Hback. eexists. reflexivity.
Qed.

(** C9. [updateFandom], [updateFanficStory] and [updateFanficChapter] go
    through for a caller who may write the row: on an accepted input that
    names an existing fandom not owned by someone else; an owned story, with
    a usable fandom if the input names one; an existing chapter of an owned
    story, with safe integers as [orderIndex]. After any successful run the
    table reads, row by row: a row with the id of the input has every column
    whose field was not supplied as before, every supplied column at the
    supplied value, and [updatedAt] at the clock reading of the update;
    every other row, and the two other tables, are as before. The row in the
    reply is such a patched row. *)
Theorem partial_update_frame (raw : JsVal) (context : ActionAPIContext)
    (userId : string) (w : World) :
  (forall i fandom rest,
     UpdateFandom.input raw = Some i ->
     filter (fun f => String.eqb (Fandom.id f) (UpdateFandom.id i)) (Fandoms (db w))
       = fandom :: rest ->
     ~ someoneElses fandom userId ->
     exists reply,
       outcome (updateFandom raw (signedIn userId) w) = Ok reply /\
       data reply = Some (UpdateFandom.assign i (clock w) fandom) /\
       fandomsUpdated i w (db (world (updateFandom raw (signedIn userId) w))) reply) /\
  (forall i,
     UpdateFanficStory.input raw = Some i ->
     ownsStory (db w) (UpdateFanficStory.id i) userId ->
     fandomUsable i userId (db w) ->
     exists reply,
       outcome (updateFanficStory raw (signedIn userId) w) = Ok reply /\
       storiesUpdated i w (db (world (updateFanficStory raw (signedIn userId) w))) reply) /\
  (forall i,
     UpdateFanficChapter.input raw = Some i ->
     ownsStory (db w) (UpdateFanficChapter.storyId i) userId ->
     (exists c, In c (FanficChapters (db w)) /\
                FanficChapter.id c = UpdateFanficChapter.id i /\
                FanficChapter.storyId c = UpdateFanficChapter.storyId i) ->
     (forall c, In c (FanficChapters (db w)) ->
                FanficChapter.id c = UpdateFanficChapter.id i ->
                safeInteger (FanficChapter.orderIndex c) = true) ->
     (forall o, UpdateFanficChapter.orderIndex i = Some o -> safeInteger o = true) ->
     exists reply,
       outcome (updateFanficChapter raw (signedIn userId) w) = Ok reply /\
       chaptersUpdated i w (db (world (updateFanficChapter raw (signedIn userId) w))) reply) /\
  (forall reply, outcome (updateFandom raw context w) = Ok reply ->
     exists i, UpdateFandom.input raw = Some i /\
               fandomsUpdated i w (db (world (updateFandom raw context w))) reply) /\
  (forall reply, outcome (updateFanficStory raw context w) = Ok reply ->
     exists i, UpdateFanficStory.input raw = Some i /\
               storiesUpdated i w (db (world (updateFanficStory raw context w))) reply) /\
  (forall reply, outcome (updateFanficChapter raw context w) = Ok reply ->
     exists i, UpdateFanficChapter.input raw = Some i /\
               chaptersUpdated i w (db (world (updateFanficChapter raw context w))) reply).
Proof.
  split; [|split; [|split; [|split; [|split]]]].
  - intros i fandom rest Hin Hfound Hmay.
    pose proof (@updateFandom_enabled raw i userId w fandom rest Hin Hfound Hmay) as Hok.
    eexists. split; [exact Hok|]. split; [reflexivity|].
    destruct (@updateFandom_frame raw (signedIn userId) w _ Hok) as [i' [Hin' Hframe]].
    rewrite Hin in Hin'. injection Hin' as <-. exact Hframe.
  - intros i Hin Howns Hfandom.
    destruct (@updateFanficStory_enabled raw i userId w Hin Howns Hfandom) as [reply Hok].
    exists reply. split; [exact Hok|].
    destruct (@updateFanficStory_frame raw (signedIn userId) w _ Hok) as [i' [Hin' Hframe]].
    rewrite Hin in Hin'. injection Hin' as <-. exact Hframe.
  - intros i Hin Howns Hexists Hstored Hgiven.
    destruct (@updateFanficChapter_enabled raw i userId w Hin Howns Hexists Hstored Hgiven)
      as [reply Hok].
    exists reply. split; [exact Hok|].
    destruct (@updateFanficChapter_frame raw (signedIn userId) w _ Hok) as [i' [Hin' Hframe]].
    rewrite Hin in Hin'. injection Hin' as <-. exact Hframe.
  - apply updateFandom_frame.
  - apply updateFanficStory_frame.
  - apply updateFanficChapter_frame.
Qed.

Lemma partial_update_frame_witness :
  (exists reply,
     outcome (updateFandom describeOwnFandom (signedIn "u1") sampleWorld) = Ok reply /\
     data reply
       = Some (Fandom.mk "f-own" (Some "u1") "Harry Potter" (Some "books")
                         (Some "The wizarding world") false 10%Z (clock sampleWorld))) /\
  (exists reply,
     outcome (updateFanficStory retitleStory1 (signedIn "u1") sampleWorld) = Ok reply /\
     storiesUpdated
       (UpdateFanficStory.mk "s1" None (Some "Second Beginnings") None None None None
                             None None)
       sampleWorld
       (db (world (updateFanficStory retitleStory1 (signedIn "u1") sampleWorld))) reply) /\
  (exists reply,
     outcome (updateFanficChapter retitleChapter1 (signedIn "u1") sampleWorld) = Ok reply /\
     chaptersUpdated
       (UpdateFanficChapter.mk "c1" "s1" None (Some "Opening") None None)
       sampleWorld
       (db (world (updateFanficChapter retitleChapter1 (signedIn "u1") sampleWorld))) reply).
Proof.
  assert (Hs1 : ownsStory (db sampleWorld) "s1" "u1").
  { exists story1. repeat split. left. reflexivity. }
  split; [|split].
  - destruct (partial_update_frame describeOwnFandom (signedIn "u1") "u1" sampleWorld)
      as [Hfandom _].
    destruct (Hfandom (UpdateFandom.mk "f-own" None None (Some "The wizarding world"))
                      ownFandom [] eq_refl eq_refl) as [reply [Hok [Hdata _]]].
    + intros [owner [Ho [_ Hneq]]]. simpl in Ho. injection Ho as <-.
      apply Hneq. reflexivity.
    + exists reply. split; [exact Hok | exact Hdata].
  - destruct (partial_update_frame retitleStory1 (signedIn "u1") "u1" sampleWorld)
      as [_ [Hstory _]].
    apply (Hstory (UpdateFanficStory.mk "s1" None (Some "Second Beginnings") None None
                                        None None None None) eq_refl Hs1).
    intros f Hf. discriminate.
  - destruct (partial_update_frame retitleChapter1 (signedIn "u1") "u1" sampleWorld)
      as [_ [_ [Hchapter _]]].
    apply (Hchapter (UpdateFanficChapter.mk "c1" "s1" None (Some "Opening") None None)
                    eq_refl Hs1).
    + exists chapter1. repeat split. left. reflexivity.
    + simpl. intros c [<-|[<-|[]]] _; reflexivity.
    + intros o Ho. discriminate.
Defined.

(** ** Updates without a field *)

(** C8. When none of the optional fields of the input is present,
    [updateFandom], [updateFanficStory] and [updateFanficChapter] fail with
    the input-validation error whoever calls, and the world is untouched: the
    log of statements has no new entry, neither a read nor a write. *)
Theorem update_without_fields_rejected (raw : JsVal) (context : ActionAPIContext)
    (w : World) :
  (prop raw "name" = JUndefined -> prop raw "canonType" = JUndefined ->
   prop raw "description" = JUndefined ->
   updateFandom raw context w = (Err ActionInputError, w)) /\
  (prop raw "fandomId" = JUndefined -> prop raw "title" = JUndefined ->
   prop raw "summary" = JUndefined -> prop raw "rating" = JUndefined ->
   prop raw "pairing" = JUndefined -> prop raw "tags" = JUndefined ->
   prop raw "status" = JUndefined -> prop raw "language" = JUndefined ->
   updateFanficStory raw context w = (Err ActionInputError, w)) /\
  (prop raw "orderIndex" = JUndefined -> prop raw "title" = JUndefined ->
   prop raw "notes" = JUndefined -> prop raw "content" = JUndefined ->
   updateFanficChapter raw context w = (Err ActionInputError, w)).
Proof.
  split; [|split].
  - intros Hn Hc Hd. unfold updateFandom, defineAction.
    unfold UpdateFandom.input, z.refine, UpdateFandom.object.
    rewrite Hn, Hc, Hd.
    destruct (z.isObject raw); [|reflexivity].
    destruct (z.string_min1 (prop raw "id")); reflexivity.
  - intros Hf Ht Hs Hr Hp Hg Hu Hl. unfold updateFanficStory, defineAction.
    unfold UpdateFanficStory.input, z.refine, UpdateFanficStory.object.
    rewrite Hf, Ht, Hs, Hr, Hp, Hg, Hu, Hl.
    destruct (z.isObject raw); [|reflexivity].
    destruct (z.string_min1 (prop raw "id")); reflexivity.
  - intros Ho Ht Hn Hc. unfold updateFanficChapter, defineAction.
    unfold UpdateFanficChapter.input, z.refine, UpdateFanficChapter.object.
    rewrite Ho, Ht, Hn, Hc.
    destruct (z.isObject raw); [|reflexivity].
    destruct (z.string_min1 (prop raw "id")); [|reflexivity].
    destruct (z.string_min1 (prop raw "storyId")); reflexivity.
Qed.

Lemma update_without_fields_rejected_witness :
  updateFandom noFieldsForFandom (signedIn "u1") sampleWorld
    = (Err ActionInputError, sampleWorld) /\
  updateFanficStory noFieldsForStory (signedIn "u1") sampleWorld
    = (Err ActionInputError, sampleWorld) /\
  updateFanficChapter noFieldsForChapter (signedIn "u1") sampleWorld
    = (Err ActionInputError, sampleWorld).
Proof.
  split; [|split].
  - apply (update_without_fields_rejected noFieldsForFandom (signedIn "u1") sampleWorld);
      reflexivity.
  - destruct (update_without_fields_rejected noFieldsForStory (signedIn "u1") sampleWorld)
      as [_ [Hstory _]].
    apply Hstory; reflexivity.
  - destruct (update_without_fields_rejected noFieldsForChapter (signedIn "u1") sampleWorld)
      as [_ [_ Hchapter]].
    apply Hchapter; reflexivity.
Defined.

(** ** Deleting a chapter *)

Lemma getOwnedChapter_ok (chapterId storyId userId : string) (w w1 : World)
    (chapter : FanficChapter.t) :
  getOwnedChapter chapterId storyId userId w = (Ok chapter, w1) ->
  In chapter (FanficChapters (db w)) /\
  FanficChapter.id chapter = chapterId /\
  FanficChapter.storyId chapter = storyId /\
  w1 = after (Select TFanficChapters) (db w) (after (Select TFanficStories) (db w) w) /\
  exists story stories,
    filter (fun s => String.eqb (FanficStory.id s) storyId
                     && String.eqb (FanficStory.userId s) userId)
           (FanficStories (db w)) = story :: stories.
Proof.
  rewrite getOwnedChapter_run, getOwnedStory_run.
  destruct (filter _ (FanficStories (db w))) as [|story stories] eqn:Hstory;
    [discriminate|].
  cbv zeta. simpl db.
  destruct (forallb readable _); [|discriminate].
  destruct (filter _ (FanficChapters (db w))) as [|c rest] eqn:Hf; [discriminate|].
  intros Heq. injection Heq as <- <-.
  apply filter_head in Hf. destruct Hf as [Hin Hp].
  apply andb_true_iff in Hp. destruct Hp as [Hid Hs].
  apply String.eqb_eq in Hid. apply String.eqb_eq in Hs.
  repeat split; try assumption. exists story, stories. reflexivity.
Qed.

Lemma deleteById_run (chapterId : string) (w : World) :
  DeleteFanficChapter.deleteById chapterId w =
  let hit := fun c => String.eqb (FanficChapter.id c) chapterId in
  let w1 := after (Delete TFanficChapters)
                  (mkDb (Fandoms (db w)) (FanficStories (db w))
                        (filter (fun c => negb (hit c)) (FanficChapters (db w))))
                  w in
  (match filter hit (FanficChapters (db w)) with
   | [] => Err (notFound "Chapter not found.")
   | _ :: _ => Ok (mkReply true tt)
   end, w1).
Proof.
  unfold DeleteFanficChapter.deleteById. unfold_monad. simpl.
  destruct (filter _ (FanficChapters (db w))); reflexivity.
Qed.

Lemma deleteFanficChapter_run (raw : JsVal) (context : ActionAPIContext) (w : World)
    (i : DeleteFanficChapter.Input) (user : User.t) :
  DeleteFanficChapter.input raw = Some i ->
  requireUser context w = (Ok user, w) ->
  deleteFanficChapter raw context w =
  match getOwnedChapter (DeleteFanficChapter.id i) (DeleteFanficChapter.storyId i)
                        (User.id user) w with
  | (Ok _, w1) => DeleteFanficChapter.deleteById (DeleteFanficChapter.id i) w1
  | (Err e, w1) => (Err e, w1)
  end.
Proof.
  intros Hin Hu. unfold deleteFanficChapter, defineAction. rewrite Hin.
  unfold DeleteFanficChapter.handler. unfold bind at 1. rewrite Hu.
  unfold bind at 1.
  destruct (getOwnedChapter _ _ _ w) as [[chapter|e] w1]; reflexivity.
Qed.

(** No row with the id is left once the rows with the id are filtered out. *)
Lemma filter_out_then_in (chapterId storyId : string) (l : list FanficChapter.t) :
  filter (fun c => String.eqb (FanficChapter.id c) chapterId
                   && String.eqb (FanficChapter.storyId c) storyId)
         (filter (fun c => negb (String.eqb (FanficChapter.id c) chapterId)) l) = [].
Proof.
  apply filter_nil_iff. intros c Hin. apply filter_In in Hin. destruct Hin as [_ Hneg].
  apply negb_true_iff in Hneg. rewrite Hneg. reflexivity.
Qed.

(** C10. [deleteFanficChapter] runs [getOwnedChapter] first: when that
    fails, the action fails with its error and deletes nothing; when it
    succeeds, the rows of the chapter table with the chapter's id, whatever
    their story, are removed and the action succeeds. The delete step
    answers NOT_FOUND when it removes no row. Hence a second call with the
    same input, right after a successful one, fails with NOT_FOUND. *)
Theorem deleteFanficChapter_twice (raw : JsVal) (context : ActionAPIContext) (w : World) :
  (forall i user,
     DeleteFanficChapter.input raw = Some i ->
     requireUser context w = (Ok user, w) ->
     let check := getOwnedChapter (DeleteFanficChapter.id i)
                    (DeleteFanficChapter.storyId i) (User.id user) w in
     let run := deleteFanficChapter raw context w in
     (forall e, outcome check = Err e ->
        outcome run = Err e /\ db (world run) = db w) /\
     (forall chapter, outcome check = Ok chapter ->
        outcome run = Ok (mkReply true tt) /\
        log (world run)
          = (log w ++ [Select TFanficStories; Select TFanficChapters;
                       Delete TFanficChapters])%list /\
        FanficChapters (db (world run))
          = filter (fun c => negb (String.eqb (FanficChapter.id c) (DeleteFanficChapter.id i)))
                   (FanficChapters (db w)) /\
        FanficStories (db (world run)) = FanficStories (db w) /\
        Fandoms (db (world run)) = Fandoms (db w))) /\
  (forall chapterId,
     (forall c, In c (FanficChapters (db w)) -> FanficChapter.id c <> chapterId) ->
     outcome (DeleteFanficChapter.deleteById chapterId w)
       = Err (notFound "Chapter not found.")) /\
  (forall reply,
     outcome (deleteFanficChapter raw context w) = Ok reply ->
     outcome (deleteFanficChapter raw context (world (deleteFanficChapter raw context w)))
       = Err (notFound "Chapter not found.")).
Proof.
  split; [|split].
  - intros i user Hin Hu check run. subst check run.
    rewrite (deleteFanficChapter_run raw context Hin Hu).
    pose proof (getOwnedChapter_db (DeleteFanficChapter.id i)
                  (DeleteFanficChapter.storyId i) (User.id user) w) as Hdb.
    destruct (getOwnedChapter (DeleteFanficChapter.id i) (DeleteFanficChapter.storyId i)
                              (User.id user) w) as [[owned|e0] w1] eqn:Hcheck.
    + split; [intros e Habs; discriminate|].
      intros chapter _.
      destruct (getOwnedChapter_ok _ _ _ _ Hcheck) as [Hmem [Hid [_ [-> _]]]].
      rewrite deleteById_run. unfold outcome, world. simpl.
      destruct (filter (fun c => String.eqb (FanficChapter.id c) (DeleteFanficChapter.id i))
                       (FanficChapters (db w))) as [|hit hits] eqn:Hhit.
      { exfalso. rewrite filter_nil_iff in Hhit. specialize (Hhit owned Hmem).
        simpl in Hhit. rewrite Hid, String.eqb_refl in Hhit. discriminate. }
      repeat split. rewrite <- !app_assoc. reflexivity.
    + split; [|intros chapter Habs; discriminate].
      intros e He. unfold outcome in He. simpl in He. injection He as <-.
      split; [reflexivity | exact Hdb].
  - intros chapterId Hnone. rewrite deleteById_run. unfold outcome. simpl.
    replace (filter _ (FanficChapters (db w))) with (@nil FanficChapter.t); [reflexivity|].
    symmetry. apply filter_nil_iff. intros c Hmem. apply String.eqb_neq.
    apply Hnone. exact Hmem.
  - intros reply.
    destruct (deleteFanficChapter raw context w) as [res w'] eqn:Hrun.
    unfold outcome, world. simpl. intros ->.
    unfold deleteFanficChapter, defineAction in *.
    destruct (DeleteFanficChapter.input raw) as [i|]; [|discriminate].
    unfold DeleteFanficChapter.handler in *. unfold bind at 1 in Hrun. unfold bind at 1.
    destruct (requireUser_cases context w) as [[user Hu]|Hu]; rewrite Hu in Hrun;
      [|discriminate].
    destruct (requireUser_cases context w') as [[user' Hu']|Hu'].
    2:{ unfold requireUser in Hu, Hu'. destruct (locals context) as [l|]; [|discriminate].
        destruct (App.user l); discriminate. }
    assert (user' = user) as ->.
    { unfold requireUser in Hu, Hu'. destruct (locals context) as [l|]; [|discriminate].
      destruct (App.user l); [|discriminate]. unfold ret in *. congruence. }
    rewrite Hu'. unfold bind at 1 in Hrun. unfold bind at 1.
    destruct (getOwnedChapter (DeleteFanficChapter.id i) (DeleteFanficChapter.storyId i)
                              (User.id user) w) as [[owned|e0] w1] eqn:Hcheck;
      [|discriminate].
    destruct (getOwnedChapter_ok _ _ _ _ Hcheck) as [_ [_ [_ [-> [story [stories Hstory]]]]]].
    rewrite deleteById_run in Hrun. simpl in Hrun.
    injection Hrun as _ <-.
    rewrite getOwnedChapter_run, getOwnedStory_run. simpl. rewrite Hstory.
    cbv zeta. simpl. rewrite filter_out_then_in. reflexivity.
Qed.

Lemma deleteFanficChapter_twice_witness :
  let once := deleteFanficChapter dropChapter1 (signedIn "u1") sampleWorld in
  outcome once = Ok (mkReply true tt) /\
  FanficChapters (db (world once)) = [chapter2] /\
  outcome (deleteFanficChapter dropChapter1 (signedIn "u1") (world once))
    = Err (notFound "Chapter not found.").
Proof.
  destruct (deleteFanficChapter_twice dropChapter1 (signedIn "u1") sampleWorld)
    as [Hfirst [_ Hsecond]].
  destruct (Hfirst (DeleteFanficChapter.mk "c1" "s1") (User.mk "u1") eq_refl eq_refl)
    as [_ Hdeleted].
  destruct (Hdeleted chapter1 eq_refl) as [Hok [_ [Hrows _]]].
  split; [exact Hok|]. split; [exact Hrows|].
  exact (Hsecond (mkReply true tt) eq_refl).
Defined.

(** ** Callers that are not signed in *)

Lemma requireUser_anonymous (context : ActionAPIContext) (w : World) :
  anonymous context -> requireUser context w = (Err unauthorized, w).
Proof.
  unfold anonymous, requireUser. intros Hanon.
  destruct (locals context) as [l|]; [|reflexivity].
  rewrite (Hanon l eq_refl). reflexivity.
Qed.

Lemma requireUser_known (context : ActionAPIContext) (w : World) (user : User.t) :
  requireUser context w = (Ok user, w) ->
  forall w', requireUser context w' = (Ok user, w').
Proof.
  unfold requireUser. destruct (locals context) as [l|]; [|discriminate].
  destruct (App.user l) as [u|]; [|discriminate].
  unfold ret. intros Heq w'. injection Heq as ->. reflexivity.
Qed.

Ltac enter_handler Hu :=
  match goal with
  | |- context [bind (requireUser ?c) ?k ?w] =>
      change (bind (requireUser c) k w)
        with (match requireUser c w with
              | (Ok a, w') => k a w'
              | (Err e, w') => (Err e, w')
              end);
      rewrite Hu
  end.

(** Without a signed-in user every action of [server] fails, with the
    input-validation error when the schema refuses the input and with
    UNAUTHORIZED otherwise, and the world is as before: no statement has
    reached the store. *)
Theorem server_anonymous (name : ActionName) (raw : JsVal) (context : ActionAPIContext)
    (w : World) :
  anonymous context ->
  server name raw context w = (Some ActionInputError, w) \/
  server name raw context w = (Some unauthorized, w).
Proof.
  intros Hanon. pose proof (requireUser_anonymous w Hanon) as Hu.
  destruct name; simpl;
    unfold createFandom, updateFandom, createFanficStory, updateFanficStory,
           listFanficStories, createFanficChapter, updateFanficChapter,
           deleteFanficChapter, listFanficChapters, defineAction;
    match goal with
    | |- context [match ?s raw with _ => _ end] =>
        destruct (s raw) as [i|]; [right | left; reflexivity]
    end;
    unfold CreateFandom.handler, UpdateFandom.handler, CreateFanficStory.handler,
           UpdateFanficStory.handler, ListFanficStories.handler,
           CreateFanficChapter.handler, UpdateFanficChapter.handler,
           DeleteFanficChapter.handler, ListFanficChapters.handler;
    enter_handler Hu; reflexivity.
Qed.

Lemma server_anonymous_witness :
  server UpdateFanficStoryAction retitleStory1 (mkContext None) sampleWorld
    = (Some unauthorized, sampleWorld) /\
  server DeleteFanficChapterAction dropChapter1
         (mkContext (Some (App.mkLocals None))) sampleWorld
    = (Some unauthorized, sampleWorld).
Proof.
  split.
  - destruct (server_anonymous UpdateFanficStoryAction retitleStory1
                (context := mkContext None) sampleWorld) as [Hbad|Hun].
    + intros l Hl. discriminate.
    + discriminate.
    + exact Hun.
  - destruct (server_anonymous DeleteFanficChapterAction dropChapter1
                (context := mkContext (Some (App.mkLocals None))) sampleWorld)
      as [Hbad|Hun].
    + intros l Hl. injection Hl as <-. reflexivity.
    + discriminate.
    + exact Hun.
Defined.

(** ** Relating the store before and after a handler *)

Section Stepping.
Variable step : Db -> Db -> Prop.
Hypothesis step_refl : forall d, step d d.
Hypothesis step_trans : forall d1 d2 d3, step d1 d2 -> step d2 d3 -> step d1 d3.

Lemma steps_ret {A : Type} (a : A) : Steps step (ret a).
Proof. intros w. apply step_refl. Qed.

Lemma steps_throw {A : Type} (e : Error) : Steps step (@throw A e).
Proof. intros w. apply step_refl. Qed.

Lemma steps_newDate : Steps step newDate.
Proof. intros w. apply step_refl. Qed.

Lemma steps_randomUUID : Steps step randomUUID.
Proof. intros w. apply step_refl. Qed.

Lemma steps_select {R : Type} `{TableOf R} (cond : R -> bool) : Steps step (select cond).
Proof. intros w. apply step_refl. Qed.

Lemma steps_bind {A B : Type} (m : M A) (k : A -> M B) :
  Steps step m -> (forall a, Steps step (k a)) -> Steps step (bind m k).
Proof.
  intros Hm Hk w. unfold bind. specialize (Hm w).
  destruct (m w) as [[a|e] w1]; simpl in *.
  - apply (step_trans Hm). apply Hk.
  - exact Hm.
Qed.

Lemma steps_requireUser (context : ActionAPIContext) : Steps step (requireUser context).
Proof.
  unfold requireUser. destruct (locals context) as [l|]; [|apply steps_throw].
  destruct (App.user l); [apply steps_ret | apply steps_throw].
Qed.

Lemma steps_ensureFandomAccessible (fandomId userId : string) :
  Steps step (ensureFandomAccessible fandomId userId).
Proof.
  intros w. change (snd ?r) with (world r).
  rewrite ensureFandomAccessible_db. apply step_refl.
Qed.

Lemma steps_getOwnedStory (storyId userId : string) :
  Steps step (getOwnedStory storyId userId).
Proof.
  intros w. change (snd ?r) with (world r). rewrite getOwnedStory_db. apply step_refl.
Qed.

Lemma steps_getOwnedChapter (chapterId storyId userId : string) :
  Steps step (getOwnedChapter chapterId storyId userId).
Proof.
  intros w. change (snd ?r) with (world r). rewrite getOwnedChapter_db. apply step_refl.
Qed.

Lemma steps_defineAction {I O : Type} (input : z.Schema I)
    (handler : I -> ActionAPIContext -> M O) (raw : JsVal) (context : ActionAPIContext) :
  (forall i, Steps step (handler i context)) ->
  Steps step (defineAction input handler raw context).
Proof.
  intros Hh. unfold defineAction. destruct (input raw); [apply Hh | apply steps_throw].
Qed.

End Stepping.

Lemma failure_world {A : Type} (r : Result A * World) : snd (failure r) = snd r.
Proof. destruct r as [[a|e] w]; reflexivity. Qed.

(** ** What no action undoes *)

Lemma grownBy_refl {K : Type} (fresh : K -> Prop) (l : list K) : grownBy fresh l l.
Proof. exists []. split; [symmetry; apply app_nil_r | constructor]. Qed.

Lemma grownBy_trans {K : Type} (fresh : K -> Prop) (l1 l2 l3 : list K) :
  grownBy fresh l1 l2 -> grownBy fresh l2 l3 -> grownBy fresh l1 l3.
Proof.
  intros [e1 [-> H1]] [e2 [-> H2]]. exists (e1 ++ e2)%list. split.
  - symmetry. apply app_assoc.
  - apply Forall_app. split; assumption.
Qed.

Lemma evolves_refl (d : Db) : evolves d d.
Proof. split; apply grownBy_refl. Qed.

Lemma evolves_trans (d1 d2 d3 : Db) : evolves d1 d2 -> evolves d2 d3 -> evolves d1 d3.
Proof.
  intros [Hf1 Hs1] [Hf2 Hs2]. split; eapply grownBy_trans; eassumption.
Qed.

Lemma map_patch_same {R K : Type} (key : R -> K) (assign : R -> R) (cond : R -> bool)
    (l : list R) :
  (forall r, key (assign r) = key r) ->
  map key (map (fun r => if cond r then assign r else r) l) = map key l.
Proof.
  intros Hkey. rewrite map_map. apply map_ext. intros r.
  destruct (cond r); [apply Hkey | reflexivity].
Qed.

Lemma evolves_insert_fandom (id owner name : string) (canonType description : option string)
    (created updated : Date) :
  Steps evolves
        (insert (Fandom.mk id (Some owner) name canonType description false created updated)).
Proof.
  intros w. unfold insert.
  destruct (existsb _ _); simpl; [apply evolves_refl|].
  split; simpl; [|apply grownBy_refl].
  rewrite map_app. eexists. split; [reflexivity|].
  constructor; [|constructor]. exists id, owner, created. reflexivity.
Qed.

Lemma evolves_insert_story (s : FanficStory.t) : Steps evolves (insert s).
Proof.
  intros w. unfold insert.
  destruct (existsb _ _); simpl; [apply evolves_refl|].
  destruct (fandomExists s (db w)); simpl; [|apply evolves_refl].
  split; simpl; [apply grownBy_refl|].
  rewrite map_app. eexists. split; [reflexivity|].
  constructor; [exact I | constructor].
Qed.

Lemma evolves_insert_chapter (c : FanficChapter.t) : Steps evolves (insert c).
Proof.
  intros w. unfold insert.
  destruct (existsb _ _); simpl; [split; apply grownBy_refl|].
  destruct (storyExists c (db w)); simpl; split; apply grownBy_refl.
Qed.

Lemma evolves_update_fandom (i : UpdateFandom.Input) (now : Date)
    (cond : Fandom.t -> bool) :
  Steps evolves (update (UpdateFandom.assign i now) cond).
Proof.
  intros w. unfold update. simpl. split; simpl; [|apply grownBy_refl].
  rewrite map_patch_same; [apply grownBy_refl | reflexivity].
Qed.

Lemma evolves_update_story (i : UpdateFanficStory.Input) (now : Date)
    (cond : FanficStory.t -> bool) :
  Steps evolves (update (UpdateFanficStory.assign i now) cond).
Proof.
  intros w. unfold update. simpl. split; simpl; [apply grownBy_refl|].
  rewrite map_patch_same; [apply grownBy_refl | reflexivity].
Qed.

Lemma evolves_update_chapter (assign : FanficChapter.t -> FanficChapter.t)
    (cond : FanficChapter.t -> bool) :
  Steps evolves (update assign cond).
Proof. intros w. split; apply grownBy_refl. Qed.

Lemma evolves_delete_chapter (cond : FanficChapter.t -> bool) :
  Steps evolves (delete cond).
Proof. intros w. split; apply grownBy_refl. Qed.

Ltac stepping refl trans :=
  repeat match goal with
    | |- Steps _ (bind _ _) => eapply steps_bind; [exact trans | | intros]
    | |- Steps _ (ret _) => apply steps_ret; exact refl
    | |- Steps _ (throw _) => apply steps_throw; exact refl
    | |- Steps _ newDate => apply steps_newDate; exact refl
    | |- Steps _ randomUUID => apply steps_randomUUID; exact refl
    | |- Steps _ (select _) => apply steps_select; exact refl
    | |- Steps _ (requireUser _) => apply steps_requireUser; exact refl
    | |- Steps _ (ensureFandomAccessible _ _) =>
        apply steps_ensureFandomAccessible; exact refl
    | |- Steps _ (getOwnedStory _ _) => apply steps_getOwnedStory; exact refl
    | |- Steps _ (getOwnedChapter _ _ _) => apply steps_getOwnedChapter; exact refl
    | |- Steps _ (if ?b then _ else _) => destruct b
    | |- Steps _ (match ?x with _ => _ end) => destruct x
    end.

(** Across any call of any action of [server], with any input and by any
    caller, every fandom and every story of the store is still there
    afterwards, at its place, with its id, its owner, its system flag and its
    creation date; a fandom that was added has an owner and is not a system
    fandom. *)
Theorem server_evolves (name : ActionName) (raw : JsVal) (context : ActionAPIContext)
    (w : World) :
  evolves (db w) (db (snd (server name raw context w))).
Proof.
  destruct name; simpl; rewrite failure_world;
    match goal with
    | |- evolves (db w) (db (snd (?action raw context w))) =>
        revert w; change (Steps evolves (action raw context))
    end;
    (apply steps_defineAction; [exact evolves_refl | intros i]).
  - unfold CreateFandom.handler. stepping evolves_refl evolves_trans.
    apply evolves_insert_fandom.
  - unfold UpdateFandom.handler. stepping evolves_refl evolves_trans.
    apply evolves_update_fandom.
  - unfold CreateFanficStory.handler. stepping evolves_refl evolves_trans.
    all: apply evolves_insert_story.
  - unfold UpdateFanficStory.handler. stepping evolves_refl evolves_trans.
    all: apply evolves_update_story.
  - unfold ListFanficStories.handler. stepping evolves_refl evolves_trans.
  - unfold CreateFanficChapter.handler. stepping evolves_refl evolves_trans.
    apply evolves_insert_chapter.
  - unfold UpdateFanficChapter.handler. stepping evolves_refl evolves_trans.
    apply evolves_update_chapter.
  - unfold DeleteFanficChapter.handler, DeleteFanficChapter.deleteById.
    stepping evolves_refl evolves_trans. apply evolves_delete_chapter.
  - unfold ListFanficChapters.handler. stepping evolves_refl evolves_trans.
Qed.

(** ** Primary keys *)

Lemma keepsKeys_refl (d : Db) : keepsKeys d d.
Proof. intros H. exact H. Qed.

Lemma keepsKeys_trans (d1 d2 d3 : Db) :
  keepsKeys d1 d2 -> keepsKeys d2 d3 -> keepsKeys d1 d3.
Proof. intros H12 H23 H1. apply H23, H12, H1. Qed.

Lemma NoDup_keys_snoc {R : Type} (key : R -> string) (l : list R) (r : R) :
  existsb (fun x => String.eqb (key x) (key r)) l = false ->
  NoDup (map key l) -> NoDup (map key (l ++ [r])).
Proof.
  intros Hnew Hl. rewrite map_app. simpl.
  apply NoDup_rev in Hl. rewrite <- (rev_involutive (map key l ++ [key r])).
  apply NoDup_rev. rewrite rev_app_distr. simpl. constructor; [|exact Hl].
  rewrite <- in_rev. intros Hin. apply in_map_iff in Hin.
  destruct Hin as [x [Hkey Hx]].
  assert (Hex : existsb (fun x => String.eqb (key x) (key r)) l = true).
  { apply existsb_exists. exists x. split; [exact Hx|]. apply String.eqb_eq. exact Hkey. }
  rewrite Hnew in Hex. discriminate.
Qed.

Lemma NoDup_keys_filter {R : Type} (key : R -> string) (keep : R -> bool) (l : list R) :
  NoDup (map key l) -> NoDup (map key (filter keep l)).
Proof.
  induction l as [|a l IH]; simpl; intros Hl; [constructor|].
  inversion Hl as [|k ks Hnotin Hrest]; subst.
  destruct (keep a); simpl; [|apply IH; exact Hrest].
  constructor; [|apply IH; exact Hrest].
  intros Hin. apply Hnotin. apply in_map_iff in Hin. destruct Hin as [x [Hkey Hx]].
  apply in_map_iff. exists x. split; [exact Hkey|].
  apply filter_In in Hx. apply Hx.
Qed.

Lemma keepsKeys_insert_fandom (f : Fandom.t) : Steps keepsKeys (insert f).
Proof.
  intros w [Hf [Hs Hc]]. unfold insert. destruct (existsb _ _) eqn:Hex; simpl.
  - repeat split; assumption.
  - repeat split; try assumption. apply NoDup_keys_snoc; assumption.
Qed.

Lemma keepsKeys_insert_story (s : FanficStory.t) : Steps keepsKeys (insert s).
Proof.
  intros w [Hf [Hs Hc]]. unfold insert. destruct (existsb _ _) eqn:Hex; simpl.
  - repeat split; assumption.
  - destruct (fandomExists s (db w)); simpl; repeat split; try assumption.
    apply NoDup_keys_snoc; assumption.
Qed.

Lemma keepsKeys_insert_chapter (c : FanficChapter.t) : Steps keepsKeys (insert c).
Proof.
  intros w [Hf [Hs Hc]]. unfold insert. destruct (existsb _ _) eqn:Hex; simpl.
  - repeat split; assumption.
  - destruct (storyExists c (db w)); simpl; repeat split; try assumption.
    apply NoDup_keys_snoc; assumption.
Qed.

Lemma keepsKeys_update_fandom (i : UpdateFandom.Input) (now : Date)
    (cond : Fandom.t -> bool) :
  Steps keepsKeys (update (UpdateFandom.assign i now) cond).
Proof.
  intros w [Hf [Hs Hc]]. unfold update, wellKeyed. simpl. repeat split; try assumption.
  rewrite map_patch_same; [exact Hf | reflexivity].
Qed.

Lemma keepsKeys_update_story (i : UpdateFanficStory.Input) (now : Date)
    (cond : FanficStory.t -> bool) :
  Steps keepsKeys (update (UpdateFanficStory.assign i now) cond).
Proof.
  intros w [Hf [Hs Hc]]. unfold update, wellKeyed. simpl. repeat split; try assumption.
  rewrite map_patch_same; [exact Hs | reflexivity].
Qed.

Lemma keepsKeys_update_chapter (i : UpdateFanficChapter.Input) (now : Date)
    (cond : FanficChapter.t -> bool) :
  Steps keepsKeys (update (UpdateFanficChapter.assign i now) cond).
Proof.
  intros w [Hf [Hs Hc]]. unfold update, wellKeyed. simpl. repeat split; try assumption.
  rewrite map_patch_same; [exact Hc | reflexivity].
Qed.

Lemma keepsKeys_delete_chapter (cond : FanficChapter.t -> bool) :
  Steps keepsKeys (delete cond).
Proof.
  intros w [Hf [Hs Hc]]. unfold delete, wellKeyed. simpl. repeat split; try assumption.
  apply NoDup_keys_filter. exact Hc.
Qed.

(** When no two rows of a table share an id before an action of [server]
    runs, none do afterwards, whatever the input, the caller and the
    identifier that [crypto.randomUUID()] hands out. *)
Theorem server_wellKeyed (name : ActionName) (raw : JsVal) (context : ActionAPIContext)
    (w : World) :
  wellKeyed (db w) -> wellKeyed (db (snd (server name raw context w))).
Proof.
  change (keepsKeys (db w) (db (snd (server name raw context w)))).
  destruct name; simpl; rewrite failure_world;
    match goal with
    | |- keepsKeys (db w) (db (snd (?action raw context w))) =>
        revert w; change (Steps keepsKeys (action raw context))
    end;
    (apply steps_defineAction; [exact keepsKeys_refl | intros i]).
  - unfold CreateFandom.handler. stepping keepsKeys_refl keepsKeys_trans.
    apply keepsKeys_insert_fandom.
  - unfold UpdateFandom.handler. stepping keepsKeys_refl keepsKeys_trans.
    apply keepsKeys_update_fandom.
  - unfold CreateFanficStory.handler. stepping keepsKeys_refl keepsKeys_trans.
    all: apply keepsKeys_insert_story.
  - unfold UpdateFanficStory.handler. stepping keepsKeys_refl keepsKeys_trans.
    all: apply keepsKeys_update_story.
  - unfold ListFanficStories.handler. stepping keepsKeys_refl keepsKeys_trans.
  - unfold CreateFanficChapter.handler. stepping keepsKeys_refl keepsKeys_trans.
    apply keepsKeys_insert_chapter.
  - unfold UpdateFanficChapter.handler. stepping keepsKeys_refl keepsKeys_trans.
    apply keepsKeys_update_chapter.
  - unfold DeleteFanficChapter.handler, DeleteFanficChapter.deleteById.
    stepping keepsKeys_refl keepsKeys_trans. apply keepsKeys_delete_chapter.
  - unfold ListFanficChapters.handler. stepping keepsKeys_refl keepsKeys_trans.
Qed.

Lemma server_wellKeyed_witness :
  wellKeyed (db (snd (server CreateFanficStoryAction newStoryInOwnFandom
                             (signedIn "u1") sampleWorld))).
Proof.
  apply (server_wellKeyed CreateFanficStoryAction newStoryInOwnFandom
                          (signedIn "u1") sampleWorld).
  unfold wellKeyed. simpl.
  repeat split;
    repeat (constructor; [simpl; intuition discriminate|]); constructor.
Defined.

(** ** Creating, then looking up *)

Lemma existsb_false_filter {A : Type} (p : A -> bool) (l : list A) :
  existsb p l = false -> filter p l = [].
Proof.
  intros Hnone. apply filter_nil_iff. intros x Hin.
  destruct (p x) eqn:Hp; [|reflexivity].
  assert (Hex : existsb p l = true) by (apply existsb_exists; exists x; split; assumption).
  rewrite Hnone in Hex. discriminate.
Qed.

Lemma filter_snoc_fresh {A : Type} (p : A -> bool) (l : list A) (r : A) :
  existsb p l = false -> p r = true -> filter p (l ++ [r]) = [r].
Proof.
  intros Hnone Hr. rewrite filter_app, (existsb_false_filter p l Hnone). simpl.
  rewrite Hr. reflexivity.
Qed.

Lemma string_min1_some (v : JsVal) (s : string) :
  z.string_min1 v = Some s -> v = JStr s /\ s <> EmptyString.
Proof.
  destruct v; simpl; try discriminate.
  destruct s0; simpl; [discriminate|]. intros Heq. injection Heq as <-.
  split; [reflexivity | discriminate].
Qed.

(** A successful [createFandom] appends one row and touches nothing else:
    the row carries the minted id, the caller as owner, a non-empty name, a
    false system flag and the clock reading as both dates, and it is the row
    of the reply. No fandom had that id before. Looked up afterwards under
    that id, [ensureFandomAccessible] returns this row to the creator and,
    when the creator's id is not the empty string, answers FORBIDDEN to
    every other user. *)
Theorem createFandom_then_accessible (raw : JsVal) (context : ActionAPIContext)
    (w : World) (reply : Reply (option Fandom.t)) :
  outcome (createFandom raw context w) = Ok reply ->
  exists i user,
    CreateFandom.input raw = Some i /\
    requireUser context w = (Ok user, w) /\
    let row := Fandom.mk (entropy w) (Some (User.id user)) (CreateFandom.name i)
                         (CreateFandom.canonType i) (CreateFandom.description i)
                         false (clock w) (clock w) in
    let w' := world (createFandom raw context w) in
    data reply = Some row /\
    CreateFandom.name i <> EmptyString /\
    (forall f, In f (Fandoms (db w)) -> Fandom.id f <> entropy w) /\
    db w' = mkDb (Fandoms (db w) ++ [row]) (FanficStories (db w)) (FanficChapters (db w)) /\
    outcome (ensureFandomAccessible (entropy w) (User.id user) w') = Ok row /\
    (forall other, User.id user <> EmptyString -> other <> User.id user ->
       outcome (ensureFandomAccessible (entropy w) other w')
         = Err (forbidden "You do not have access to this fandom.")).
Proof.
  destruct (createFandom raw context w) as [res w'] eqn:Hrun.
  unfold outcome, world. simpl. intros ->.
  unfold createFandom, defineAction in Hrun.
  destruct (CreateFandom.input raw) as [i|] eqn:Hin; [|discriminate].
  unfold CreateFandom.handler in Hrun. unfold bind at 1 in Hrun.
  destruct (requireUser_cases context w) as [[user Hu]|Hu]; rewrite Hu in Hrun;
    [|discriminate].
  unfold_monad. unfold insert in Hrun. simpl in Hrun.
  destruct (existsb _ (Fandoms (db w))) eqn:Hfresh; [discriminate|].
  injection Hrun as <- <-.
  exists i, user. split; [reflexivity|]. split; [exact Hu|]. cbv zeta.
  split; [reflexivity|].
  split.
  { unfold CreateFandom.input in Hin. destruct (z.isObject raw); [|discriminate].
    destruct (z.string_min1 (prop raw "name")) as [n|] eqn:Hn; [|discriminate].
    destruct (z.optional z.string_ (prop raw "canonType")); [|discriminate].
    destruct (z.optional z.string_ (prop raw "description")); [|discriminate].
    injection Hin as <-. simpl. apply (string_min1_some _ Hn). }
  split.
  { intros f Hf Hid. apply existsb_false_filter in Hfresh.
    rewrite filter_nil_iff in Hfresh. specialize (Hfresh f Hf). simpl in Hfresh.
    rewrite Hid, String.eqb_refl in Hfresh. discriminate. }
  split; [reflexivity|].
  split.
  - rewrite ensureFandomAccessible_run. simpl.
    rewrite (filter_snoc_fresh _ _ _ Hfresh) by (simpl; apply String.eqb_refl).
    simpl. rewrite String.eqb_refl. simpl. rewrite andb_false_r. reflexivity.
  - intros other Hne Hother. rewrite ensureFandomAccessible_run. simpl.
    rewrite (filter_snoc_fresh _ _ _ Hfresh) by (simpl; apply String.eqb_refl).
    simpl. apply String.eqb_neq in Hne. rewrite Hne.
    assert (Hneq : String.eqb (User.id user) other = false).
    { apply String.eqb_neq. intros Heq. apply Hother. symmetry. exact Heq. }
    rewrite Hneq. reflexivity.
Qed.

Lemma createFandom_then_accessible_witness :
  let w' := world (createFandom newFandom (signedIn "u1") sampleWorld) in
  let row := Fandom.mk "uuid-0" (Some "u1") "Earthsea" (Some "books") None false
                       (clock sampleWorld) (clock sampleWorld) in
  outcome (ensureFandomAccessible "uuid-0" "u1" w') = Ok row /\
  outcome (ensureFandomAccessible "uuid-0" "u2" w')
    = Err (forbidden "You do not have access to this fandom.").
Proof.
  destruct (createFandom_then_accessible newFandom (signedIn "u1") sampleWorld
              (reply := mkReply true
                 (Some (Fandom.mk "uuid-0" (Some "u1") "Earthsea" (Some "books") None false
                                  (clock sampleWorld) (clock sampleWorld))))
              eq_refl)
    as [i [user [Hin [Hu [_ [_ [_ [_ [Hown Hother]]]]]]]]].
  injection Hin as <-. injection Hu as <-.
  split; [exact Hown|]. apply Hother; discriminate.
Defined.

Lemma createFanficStory_title (raw : JsVal) (i : CreateFanficStory.Input) :
  CreateFanficStory.input raw = Some i -> CreateFanficStory.title i <> EmptyString.
Proof.
  unfold CreateFanficStory.input. destruct (z.isObject raw); [|discriminate].
  destruct (z.optional z.string_ (prop raw "fandomId")); [|discriminate].
  destruct (z.string_min1 (prop raw "title")) as [t|] eqn:Ht; [|discriminate].
  destruct (z.optional z.string_ (prop raw "summary")); [|discriminate].
  destruct (z.optional z.string_ (prop raw "rating")); [|discriminate].
  destruct (z.optional z.string_ (prop raw "pairing")); [|discriminate].
  destruct (z.optional z.string_ (prop raw "tags")); [|discriminate].
  destruct (z.optional z.string_ (prop raw "status")); [|discriminate].
  destruct (z.optional z.string_ (prop raw "language")); [|discriminate].
  intros Heq. injection Heq as <-. simpl. apply (string_min1_some _ Ht).
Qed.

(** A successful [createFanficStory] appends one story and touches nothing
    else: the row carries the minted id, the caller as owner, the input's
    [fandomId] (null when absent), a non-empty title and the clock reading
    as both dates. When the input's [fandomId] is a non-empty string, a
    fandom with that id is in the store and the first such fandom is not a
    non-system fandom of someone else. Afterwards [getOwnedStory] under the
    minted id returns the row to the creator and answers NOT_FOUND to every
    other user. *)
Theorem createFanficStory_then_owned (raw : JsVal) (context : ActionAPIContext)
    (w : World) (reply : Reply (option FanficStory.t)) :
  outcome (createFanficStory raw context w) = Ok reply ->
  exists i user,
    CreateFanficStory.input raw = Some i /\
    requireUser context w = (Ok user, w) /\
    let row := FanficStory.mk (entropy w) (User.id user) (CreateFanficStory.fandomId i)
                 (CreateFanficStory.title i) (CreateFanficStory.summary i)
                 (CreateFanficStory.rating i) (CreateFanficStory.pairing i)
                 (CreateFanficStory.tags i) (CreateFanficStory.status i)
                 (CreateFanficStory.language i) (clock w) (clock w) in
    let w' := world (createFanficStory raw context w) in
    data reply = Some row /\
    FanficStory.title row <> EmptyString /\
    db w' = mkDb (Fandoms (db w)) (FanficStories (db w) ++ [row]) (FanficChapters (db w)) /\
    (forall f, CreateFanficStory.fandomId i = Some f -> f <> EmptyString ->
       exists fandom rest,
         filter (fun x => String.eqb (Fandom.id x) f) (Fandoms (db w)) = fandom :: rest /\
         ~ (someoneElses fandom (User.id user) /\ Fandom.isSystem fandom = false)) /\
    outcome (getOwnedStory (entropy w) (User.id user) w') = Ok row /\
    (forall other, other <> User.id user ->
       outcome (getOwnedStory (entropy w) other w')
         = Err (notFound "Fanfic story not found.")).
Proof.
  destruct (createFanficStory raw context w) as [res w'] eqn:Hrun.
  unfold outcome, world. simpl. intros ->.
  unfold createFanficStory, defineAction in Hrun.
  destruct (CreateFanficStory.input raw) as [i|] eqn:Hin; [|discriminate].
  unfold CreateFanficStory.handler in Hrun. unfold bind at 1 in Hrun.
  destruct (requireUser_cases context w) as [[user Hu]|Hu]; rewrite Hu in Hrun;
    [|discriminate].
  unfold bind at 1 in Hrun.
  assert (Hchecked :
    exists w1, db w1 = db w /\ clock w1 = clock w /\ entropy w1 = entropy w /\
      (forall f, CreateFanficStory.fandomId i = Some f -> f <> EmptyString ->
         exists fandom rest,
           filter (fun x => String.eqb (Fandom.id x) f) (Fandoms (db w)) = fandom :: rest /\
           ~ (someoneElses fandom (User.id user) /\ Fandom.isSystem fandom = false)) /\
      (now <- newDate ;;
       uuid <- randomUUID ;;
       inserted <- insert (FanficStory.mk uuid (User.id user) (CreateFanficStory.fandomId i)
                             (CreateFanficStory.title i) (CreateFanficStory.summary i)
                             (CreateFanficStory.rating i) (CreateFanficStory.pairing i)
                             (CreateFanficStory.tags i) (CreateFanficStory.status i)
                             (CreateFanficStory.language i) now now) ;;
       ret (mkReply true (hd_error inserted))) w1 = (Ok reply, w')).
  { destruct (CreateFanficStory.fandomId i) as [f|] eqn:Hf; unfold truthy in Hrun.
    - destruct (String.eqb f EmptyString) eqn:Hblank;
        [change (negb true) with false in Hrun | change (negb false) with true in Hrun];
        cbv iota in Hrun.
      + exists w. repeat split; try reflexivity; [|exact Hrun].
        intros f' Heq Hne. injection Heq as <-. apply String.eqb_eq in Hblank.
        contradiction.
      + unfold bind at 1 in Hrun. rewrite ensureFandomAccessible_run in Hrun.
        destruct (filter _ (Fandoms (db w))) as [|fandom rest] eqn:Hfound;
          [discriminate|].
        fold (UpdateFandom.ownedByOther fandom (User.id user)) in Hrun.
        destruct (UpdateFandom.ownedByOther fandom (User.id user)
                  && negb (Fandom.isSystem fandom)) eqn:Hcheck; [discriminate|].
        exists (after (Select TFandoms) (db w) w).
        repeat split; try reflexivity; [|exact Hrun].
        intros f' Heq _. injection Heq as <-. exists fandom, rest.
        split; [exact Hfound|]. intros [Helse Hsys].
        apply ownedByOther_true in Helse. rewrite Helse, Hsys in Hcheck. discriminate.
    - exists w. repeat split; try reflexivity; [|exact Hrun].
      intros f Heq. discriminate. }
  destruct Hchecked as [w1 [Hdb [Hclock [Hentropy [Hfandom Hrest]]]]].
  unfold_monad. unfold insert in Hrest. simpl in Hrest.
  rewrite Hdb, Hclock, Hentropy in Hrest.
  destruct (existsb _ (FanficStories (db w))) eqn:Hfresh; [discriminate|].
  destruct (fandomExists _ (db w)); [|discriminate].
  injection Hrest as <- <-.
  exists i, user. split; [reflexivity|]. split; [exact Hu|]. cbv zeta.
  split; [reflexivity|].
  split; [simpl; apply (createFanficStory_title raw Hin)|].
  split; [reflexivity|].
  split; [exact Hfandom|].
  split.
  - rewrite getOwnedStory_run. simpl.
    rewrite filter_app.
    assert (Hold : filter (fun s => String.eqb (FanficStory.id s) (entropy w)
                                    && String.eqb (FanficStory.userId s) (User.id user))
                          (FanficStories (db w)) = []).
    { apply filter_nil_iff. intros s Hs.
      apply existsb_false_filter in Hfresh. rewrite filter_nil_iff in Hfresh.
      specialize (Hfresh s Hs). simpl in Hfresh. rewrite Hfresh. reflexivity. }
    rewrite Hold. simpl. rewrite !String.eqb_refl. reflexivity.
  - intros other Hother. rewrite getOwnedStory_run. simpl.
    rewrite filter_app.
    assert (Hold : filter (fun s => String.eqb (FanficStory.id s) (entropy w)
                                    && String.eqb (FanficStory.userId s) other)
                          (FanficStories (db w)) = []).
    { apply filter_nil_iff. intros s Hs.
      apply existsb_false_filter in Hfresh. rewrite filter_nil_iff in Hfresh.
      specialize (Hfresh s Hs). simpl in Hfresh. rewrite Hfresh. reflexivity. }
    rewrite Hold. simpl. rewrite String.eqb_refl.
    assert (Hneq : String.eqb (User.id user) other = false).
    { apply String.eqb_neq. intros Heq. apply Hother. symmetry. exact Heq. }
    rewrite Hneq. reflexivity.
Qed.

Lemma createFanficStory_then_owned_witness :
  let w' := world (createFanficStory newStoryInOwnFandom (signedIn "u1") sampleWorld) in
  let row := FanficStory.mk "uuid-0" "u1" (Some "f-own") "The Long Summer"
                            None None None None None None
                            (clock sampleWorld) (clock sampleWorld) in
  outcome (getOwnedStory "uuid-0" "u1" w') = Ok row /\
  outcome (getOwnedStory "uuid-0" "u2" w') = Err (notFound "Fanfic story not found.").
Proof.
  destruct (createFanficStory_then_owned newStoryInOwnFandom (signedIn "u1") sampleWorld
              (reply := mkReply true
                 (Some (FanficStory.mk "uuid-0" "u1" (Some "f-own") "The Long Summer"
                          None None None None None None
                          (clock sampleWorld) (clock sampleWorld))))
              eq_refl)
    as [i [user [Hin [Hu [_ [_ [_ [_ [Hown Hother]]]]]]]]].
  injection Hin as <-. injection Hu as <-.
  split; [exact Hown|]. apply Hother. discriminate.
Defined.

(** ** Stories of other users *)

Lemma getOwnedStory_not_owned (storyId userId : string) (w : World) :
  ~ ownsStory (db w) storyId userId ->
  getOwnedStory storyId userId w
    = (Err (notFound "Fanfic story not found."), after (Select TFanficStories) (db w) w).
Proof.
  intros Hnot. rewrite getOwnedStory_run.
  replace (filter _ (FanficStories (db w))) with (@nil FanficStory.t); [reflexivity|].
  symmetry. apply filter_nil_iff. intros s Hin.
  destruct (String.eqb_spec (FanficStory.id s) storyId) as [Hid|Hid]; [|reflexivity].
  destruct (String.eqb_spec (FanficStory.userId s) userId) as [Hu|Hu]; [|reflexivity].
  exfalso. apply Hnot. exists s. repeat split; assumption.
Qed.

Lemma getOwnedStory_owned (storyId userId : string) (w : World) :
  ownsStory (db w) storyId userId ->
  exists story, getOwnedStory storyId userId w
                  = (Ok story, after (Select TFanficStories) (db w) w).
Proof.
  intros [s [Hin [Hid Hu]]]. rewrite getOwnedStory_run.
  destruct (filter _ (FanficStories (db w))) as [|story rest] eqn:Hf.
  - exfalso. rewrite filter_nil_iff in Hf. specialize (Hf s Hin). simpl in Hf.
    rewrite Hid, Hu, !String.eqb_refl in Hf. discriminate.
  - exists story. reflexivity.
Qed.

(** When the caller owns no story with the id that the input names,
    [updateFanficStory], [createFanficChapter], [updateFanficChapter],
    [deleteFanficChapter] and [listFanficChapters] all fail with NOT_FOUND
    ("Fanfic story not found."), whether the story is missing or someone
    else's. The only statement issued is the select on the stories, and the
    store is as before: nothing is inserted, updated or deleted. *)
Theorem server_story_not_owned (name : ActionName) (raw : JsVal) (userId storyId : string)
    (w : World) :
  storyNamed name raw = Some storyId ->
  ~ ownsStory (db w) storyId userId ->
  server name raw (signedIn userId) w
    = (Some (notFound "Fanfic story not found."),
       after (Select TFanficStories) (db w) w).
Proof.
  intros Hnamed Hnot.
  pose proof (getOwnedStory_not_owned w Hnot) as Hmiss.
  destruct name; simpl in Hnamed; try discriminate; simpl;
    unfold updateFanficStory, createFanficChapter, updateFanficChapter,
           deleteFanficChapter, listFanficChapters, defineAction;
    match goal with
    | H : option_map _ (?s raw) = Some _ |- _ =>
        destruct (s raw) as [i|]; [|discriminate]; simpl in H; injection H as H
    end;
    unfold UpdateFanficStory.handler, CreateFanficChapter.handler,
           UpdateFanficChapter.handler, DeleteFanficChapter.handler,
           ListFanficChapters.handler;
    enter_handler (requireUser_signedIn userId w); simpl User.id; rewrite Hnamed;
    unfold bind at 1; try rewrite getOwnedChapter_run; rewrite Hmiss; reflexivity.
Qed.

Lemma server_story_not_owned_witness :
  server UpdateFanficStoryAction retitleStory2 (signedIn "u1") sampleWorld
    = (Some (notFound "Fanfic story not found."),
       after (Select TFanficStories) sampleDb sampleWorld) /\
  server CreateFanficChapterAction newChapterForStory2 (signedIn "u1") sampleWorld
    = (Some (notFound "Fanfic story not found."),
       after (Select TFanficStories) sampleDb sampleWorld).
Proof.
  assert (Hnot : ~ ownsStory (db sampleWorld) "s2" "u1").
  { intros [s [Hin [Hid Hu]]]. simpl in Hin.
    destruct Hin as [<-|[<-|[]]]; discriminate. }
  split.
  - exact (@server_story_not_owned UpdateFanficStoryAction retitleStory2 "u1" "s2"
             sampleWorld eq_refl Hnot).
  - exact (@server_story_not_owned CreateFanficChapterAction newChapterForStory2 "u1" "s2"
             sampleWorld eq_refl Hnot).
Defined.

(** ** Chapters are reached through their story *)

Lemma getOwnedChapter_through (chapterId storyId userId : string) (w : World) :
  ownsStory (db w) storyId userId ->
  getOwnedChapter chapterId storyId userId w =
  (let found := filter (fun c => String.eqb (FanficChapter.id c) chapterId
                                 && String.eqb (FanficChapter.storyId c) storyId)
                       (FanficChapters (db w)) in
   if forallb readable found
   then match found with
        | [] => Err (notFound "Chapter not found.")
        | chapter :: _ => Ok chapter
        end
   else Err RangeError,
   after (Select TFanficChapters) (db w) (after (Select TFanficStories) (db w) w)).
Proof.
  intros Howns. rewrite getOwnedChapter_run.
  destruct (getOwnedStory_owned w Howns) as [story ->]. reflexivity.
Qed.

Lemma getOwnedChapter_missing (chapterId storyId userId : string) (w : World) :
  ownsStory (db w) storyId userId ->
  (forall c, In c (FanficChapters (db w)) -> FanficChapter.id c = chapterId ->
             FanficChapter.storyId c <> storyId) ->
  getOwnedChapter chapterId storyId userId w
    = (Err (notFound "Chapter not found."),
       after (Select TFanficChapters) (db w) (after (Select TFanficStories) (db w) w)).
Proof.
  intros Howns Hnone. rewrite (getOwnedChapter_through chapterId w Howns). cbv zeta.
  replace (filter _ (FanficChapters (db w))) with (@nil FanficChapter.t);
    [reflexivity|].
  symmetry. apply filter_nil_iff. intros c Hin.
  destruct (String.eqb_spec (FanficChapter.id c) chapterId) as [Hid|Hid];
    [|reflexivity].
  simpl. apply String.eqb_neq. apply Hnone; assumption.
Qed.

(** [getOwnedChapter] only reads. A chapter it returns is a row of the
    chapter table with the given id, filed under the given story, and the
    caller owns that story. It fails with NOT_FOUND "Fanfic story not found."
    when the caller owns no story with the given story id, and with
    NOT_FOUND "Chapter not found." when the caller owns the story and no
    chapter with the given id is filed under it, even if a chapter with that
    id exists under another story. When the caller owns the story, such a
    chapter exists and the [orderIndex] of every such chapter is a safe
    integer, it succeeds. *)
Theorem getOwnedChapter_cases (chapterId storyId userId : string) (w : World) :
  let run := getOwnedChapter chapterId storyId userId w in
  db (world run) = db w /\
  (forall c, outcome run = Ok c ->
     In c (FanficChapters (db w)) /\ FanficChapter.id c = chapterId /\
     FanficChapter.storyId c = storyId /\ ownsStory (db w) storyId userId) /\
  (~ ownsStory (db w) storyId userId ->
   outcome run = Err (notFound "Fanfic story not found.")) /\
  (ownsStory (db w) storyId userId ->
   (forall c, In c (FanficChapters (db w)) -> FanficChapter.id c = chapterId ->
              FanficChapter.storyId c <> storyId) ->
   outcome run = Err (notFound "Chapter not found.")) /\
  (ownsStory (db w) storyId userId ->
   (exists c, In c (FanficChapters (db w)) /\ FanficChapter.id c = chapterId /\
              FanficChapter.storyId c = storyId) ->
   (forall c, In c (FanficChapters (db w)) -> FanficChapter.id c = chapterId ->
              FanficChapter.storyId c = storyId ->
              safeInteger (FanficChapter.orderIndex c) = true) ->
   exists c, outcome run = Ok c).
Proof.
  intros run. subst run. split; [apply getOwnedChapter_db|].
  split; [|split; [|split]].
  - intros c Hok.
    destruct (getOwnedChapter chapterId storyId userId w) as [res w1] eqn:Hrun.
    unfold outcome in Hok. simpl in Hok. subst res.
    destruct (getOwnedChapter_ok _ _ _ _ Hrun)
      as [Hin [Hid [Hsid [_ [story [stories Hstory]]]]]].
    repeat split; try assumption.
    apply filter_head in Hstory. destruct Hstory as [Hsin Hsp].
    apply andb_true_iff in Hsp. destruct Hsp as [Hs1 Hs2].
    apply String.eqb_eq in Hs1. apply String.eqb_eq in Hs2.
    exists story. repeat split; assumption.
  - intros Hnot. rewrite getOwnedChapter_run, (getOwnedStory_not_owned w Hnot).
    reflexivity.
  - intros Howns Hnone. rewrite (getOwnedChapter_missing w Howns Hnone). reflexivity.
  - intros Howns [c [Hin [Hid Hsid]]] Hsafe.
    rewrite (getOwnedChapter_through chapterId w Howns). unfold outcome. cbv zeta. simpl.
    assert (Hread : forallb readable
              (filter (fun c => String.eqb (FanficChapter.id c) chapterId
                                && String.eqb (FanficChapter.storyId c) storyId)
                      (FanficChapters (db w))) = true).
    { apply forallb_forall. intros x Hx. apply filter_In in Hx. destruct Hx as [Hx Hp].
      apply andb_true_iff in Hp. destruct Hp as [Hxid Hxs].
      apply String.eqb_eq in Hxid. apply String.eqb_eq in Hxs.
      apply Hsafe; assumption. }
    rewrite Hread.
    destruct (filter _ (FanficChapters (db w))) as [|first rest] eqn:Hfound.
    + exfalso. rewrite filter_nil_iff in Hfound. specialize (Hfound c Hin).
      simpl in Hfound. rewrite Hid, Hsid, !String.eqb_refl in Hfound. discriminate.
    + exists first. reflexivity.
Qed.

Lemma getOwnedChapter_cases_witness :
  outcome (getOwnedChapter "c1" "s2" "u2" sampleWorld)
    = Err (notFound "Chapter not found.") /\
  outcome (getOwnedChapter "c1" "s1" "u2" sampleWorld)
    = Err (notFound "Fanfic story not found.") /\
  (exists c, outcome (getOwnedChapter "c1" "s1" "u1" sampleWorld) = Ok c).
Proof.
  assert (Hs1 : ownsStory (db sampleWorld) "s1" "u1").
  { exists story1. repeat split. left. reflexivity. }
  assert (Hs2 : ownsStory (db sampleWorld) "s2" "u2").
  { exists story2. repeat split. right. left. reflexivity. }
  split; [|split].
  - destruct (getOwnedChapter_cases "c1" "s2" "u2" sampleWorld) as [_ [_ [_ [Hout _]]]].
    apply Hout; [exact Hs2|]. simpl. intros c [<-|[<-|[]]]; discriminate.
  - destruct (getOwnedChapter_cases "c1" "s1" "u2" sampleWorld) as [_ [_ [Hnot _]]].
    apply Hnot. intros [s [Hin [Hid Hu]]]. simpl in Hin.
    destruct Hin as [<-|[<-|[]]]; discriminate.
  - destruct (getOwnedChapter_cases "c1" "s1" "u1" sampleWorld) as [_ [_ [_ [_ Hin]]]].
    apply Hin; [exact Hs1 | |].
    + exists chapter1. repeat split. left. reflexivity.
    + simpl. intros c [<-|[<-|[]]] _ _; reflexivity.
Defined.

(** A chapter cannot be changed or removed by naming a story it is not filed
    under: when the caller owns the story named in the input and no chapter
    with the input's id belongs to that story, [updateFanficChapter] and
    [deleteFanficChapter] fail with NOT_FOUND "Chapter not found." and leave
    the store as it was, also when a chapter with that id exists under
    another story. *)
Theorem chapter_outside_story (raw : JsVal) (userId chapterId storyId : string)
    (w : World) :
  ownsStory (db w) storyId userId ->
  (forall c, In c (FanficChapters (db w)) -> FanficChapter.id c = chapterId ->
             FanficChapter.storyId c <> storyId) ->
  (forall i, UpdateFanficChapter.input raw = Some i ->
     UpdateFanficChapter.id i = chapterId -> UpdateFanficChapter.storyId i = storyId ->
     outcome (updateFanficChapter raw (signedIn userId) w)
       = Err (notFound "Chapter not found.") /\
     db (world (updateFanficChapter raw (signedIn userId) w)) = db w) /\
  (forall i, DeleteFanficChapter.input raw = Some i ->
     DeleteFanficChapter.id i = chapterId -> DeleteFanficChapter.storyId i = storyId ->
     outcome (deleteFanficChapter raw (signedIn userId) w)
       = Err (notFound "Chapter not found.") /\
     db (world (deleteFanficChapter raw (signedIn userId) w)) = db w).
Proof.
  intros Howns Hnone.
  pose proof (getOwnedChapter_missing w Howns Hnone) as Hcheck.
  split; intros i Hin Hid Hsid.
  - assert (Hrun : updateFanficChapter raw (signedIn userId) w
                   = (Err (notFound "Chapter not found."),
                      after (Select TFanficChapters) (db w)
                            (after (Select TFanficStories) (db w) w))).
    { unfold updateFanficChapter, defineAction. rewrite Hin.
      unfold UpdateFanficChapter.handler.
      enter_handler (requireUser_signedIn userId w). simpl User.id.
      rewrite Hid, Hsid. unfold bind at 1. rewrite Hcheck. reflexivity. }
    rewrite Hrun. split; reflexivity.
  - assert (Hrun : deleteFanficChapter raw (signedIn userId) w
                   = (Err (notFound "Chapter not found."),
                      after (Select TFanficChapters) (db w)
                            (after (Select TFanficStories) (db w) w))).
    { unfold deleteFanficChapter, defineAction. rewrite Hin.
      unfold DeleteFanficChapter.handler.
      enter_handler (requireUser_signedIn userId w). simpl User.id.
      rewrite Hid, Hsid. unfold bind at 1. rewrite Hcheck. reflexivity. }
    rewrite Hrun. split; reflexivity.
Qed.

Lemma chapter_outside_story_witness :
  outcome (updateFanficChapter chapter1UnderStory2 (signedIn "u2") sampleWorld)
    = Err (notFound "Chapter not found.") /\
  db (world (updateFanficChapter chapter1UnderStory2 (signedIn "u2") sampleWorld))
    = sampleDb.
Proof.
  assert (Hs2 : ownsStory (db sampleWorld) "s2" "u2").
  { exists story2. repeat split. right. left. reflexivity. }
  assert (Hnone : forall c, In c (FanficChapters (db sampleWorld)) ->
                    FanficChapter.id c = "c1" -> FanficChapter.storyId c <> "s2").
  { simpl. intros c [<-|[<-|[]]]; discriminate. }
  destruct (@chapter_outside_story chapter1UnderStory2 "u2" "c1" "s2" sampleWorld
              Hs2 Hnone) as [Hupdate _].
  exact (Hupdate (UpdateFanficChapter.mk "c1" "s2" None (Some "Mine now") None None)
                 eq_refl eq_refl eq_refl).
Defined.

(** ** Creating a chapter *)

Lemma createFanficChapter_accepted (raw : JsVal) (i : CreateFanficChapter.Input) :
  CreateFanficChapter.input raw = Some i ->
  CreateFanficChapter.content i <> EmptyString /\
  CreateFanficChapter.storyId i <> EmptyString /\
  (prop raw "orderIndex" = JUndefined -> CreateFanficChapter.orderIndex i = None) /\
  (forall n, prop raw "orderIndex" = JInt n -> CreateFanficChapter.orderIndex i = Some n).
Proof.
  unfold CreateFanficChapter.input. destruct (z.isObject raw); [|discriminate].
  destruct (z.string_min1 (prop raw "storyId")) as [s|] eqn:Hs; [|discriminate].
  destruct (z.optional z.number_int (prop raw "orderIndex")) as [o|] eqn:Ho;
    [|discriminate].
  destruct (z.optional z.string_ (prop raw "title")); [|discriminate].
  destruct (z.optional z.string_ (prop raw "notes")); [|discriminate].
  destruct (z.string_min1 (prop raw "content")) as [c|] eqn:Hc; [|discriminate].
  intros Heq. injection Heq as <-. simpl.
  split; [apply (string_min1_some _ Hc)|].
  split; [apply (string_min1_some _ Hs)|].
  split.
  - intros Hund. rewrite Hund in Ho. simpl in Ho. congruence.
  - intros n Hn. rewrite Hn in Ho. simpl in Ho. congruence.
Qed.

(** A successful [createFanficChapter] means the caller owns the story named
    in the input. It appends one chapter and touches nothing else: the row
    carries the minted id, that story's id, a non-empty content, the clock
    reading as both dates, and as [orderIndex] the integer of the input, or 1
    when the input has none. Afterwards [getOwnedChapter] under the minted
    id and that story returns the row to the caller. *)
Theorem createFanficChapter_then_owned (raw : JsVal) (context : ActionAPIContext)
    (w : World) (reply : Reply (option FanficChapter.t)) :
  outcome (createFanficChapter raw context w) = Ok reply ->
  exists i user,
    CreateFanficChapter.input raw = Some i /\
    requireUser context w = (Ok user, w) /\
    ownsStory (db w) (CreateFanficChapter.storyId i) (User.id user) /\
    let row := FanficChapter.mk (entropy w) (CreateFanficChapter.storyId i)
                 (match CreateFanficChapter.orderIndex i with Some o => o | None => 1%Z end)
                 (CreateFanficChapter.title i) (CreateFanficChapter.notes i)
                 (CreateFanficChapter.content i) (clock w) (clock w) in
    let w' := world (createFanficChapter raw context w) in
    data reply = Some row /\
    FanficChapter.content row <> EmptyString /\
    (prop raw "orderIndex" = JUndefined -> FanficChapter.orderIndex row = 1%Z) /\
    (forall n, prop raw "orderIndex" = JInt n -> FanficChapter.orderIndex row = n) /\
    db w' = mkDb (Fandoms (db w)) (FanficStories (db w)) (FanficChapters (db w) ++ [row]) /\
    outcome (getOwnedChapter (entropy w) (CreateFanficChapter.storyId i)
                             (User.id user) w') = Ok row.
Proof.
  destruct (createFanficChapter raw context w) as [res w'] eqn:Hrun.
  unfold outcome, world. simpl. intros ->.
  unfold createFanficChapter, defineAction in Hrun.
  destruct (CreateFanficChapter.input raw) as [i|] eqn:Hin; [|discriminate].
  unfold CreateFanficChapter.handler in Hrun. unfold bind at 1 in Hrun.
  destruct (requireUser_cases context w) as [[user Hu]|Hu]; rewrite Hu in Hrun;
    [|discriminate].
  unfold bind at 1 in Hrun. rewrite getOwnedStory_run in Hrun.
  destruct (filter _ (FanficStories (db w))) as [|story stories] eqn:Hstory;
    [discriminate|].
  unfold_monad. unfold insert in Hrun. simpl in Hrun.
  destruct (existsb _ (FanficChapters (db w))) eqn:Hfresh; [discriminate|].
  destruct (storyExists _ (db w)); [|discriminate].
  destruct (readable _) eqn:Hread; [|discriminate]. simpl in Hrun.
  injection Hrun as <- <-.
  assert (Howns : ownsStory (db w) (CreateFanficChapter.storyId i) (User.id user)).
  { apply filter_head in Hstory. destruct Hstory as [Hsin Hsp].
    apply andb_true_iff in Hsp. destruct Hsp as [Hs1 Hs2].
    apply String.eqb_eq in Hs1. apply String.eqb_eq in Hs2.
    exists story. repeat split; assumption. }
  destruct (createFanficChapter_accepted raw Hin) as [Hcontent [_ [Hdefault Hgiven]]].
  exists i, user. split; [reflexivity|]. split; [exact Hu|]. split; [exact Howns|].
  cbv zeta. split; [reflexivity|]. split; [exact Hcontent|].
  split; [intros Hund; simpl; rewrite (Hdefault Hund); reflexivity|].
  split; [intros n Hn; simpl; rewrite (Hgiven n Hn); reflexivity|].
  split; [reflexivity|].
  rewrite getOwnedChapter_through by exact Howns. unfold outcome. cbv zeta. simpl.
  rewrite filter_app.
  assert (Hold : filter (fun c => String.eqb (FanficChapter.id c) (entropy w)
                                  && String.eqb (FanficChapter.storyId c)
                                                (CreateFanficChapter.storyId i))
                        (FanficChapters (db w)) = []).
  { apply filter_nil_iff. intros c Hc.
    apply existsb_false_filter in Hfresh. rewrite filter_nil_iff in Hfresh.
    specialize (Hfresh c Hc). simpl in Hfresh. rewrite Hfresh. reflexivity. }
  rewrite Hold. simpl. rewrite !String.eqb_refl. simpl. rewrite Hread. reflexivity.
Qed.

Lemma createFanficChapter_then_owned_witness :
  let w' := world (createFanficChapter newChapterForStory1 (signedIn "u1") sampleWorld) in
  let row := FanficChapter.mk "uuid-0" "s1" 1%Z None None "And then."
                              (clock sampleWorld) (clock sampleWorld) in
  FanficChapters (db w') = [chapter1; chapter2; row] /\
  outcome (getOwnedChapter "uuid-0" "s1" "u1" w') = Ok row.
Proof.
  destruct (createFanficChapter_then_owned newChapterForStory1 (signedIn "u1") sampleWorld
              (reply := mkReply true
                 (Some (FanficChapter.mk "uuid-0" "s1" 1%Z None None "And then."
                          (clock sampleWorld) (clock sampleWorld))))
              eq_refl)
    as [i [user [Hin [Hu [_ [_ [_ [_ [_ [Hdb Hround]]]]]]]]]].
  injection Hin as <-. injection Hu as <-.
  split; [rewrite Hdb; reflexivity | exact Hround].
Defined.

(** ** Listings *)

(** [listFanficStories] takes no input or an object, and refuses anything
    else. For a signed-in caller it issues one select and changes nothing;
    its items are the caller's stories and only those, in the order of the
    table, and [total] is their number. *)
Theorem listFanficStories_own (raw : JsVal) (userId : string) (w : World) :
  (raw <> JUndefined -> z.isObject raw = false ->
   listFanficStories raw (signedIn userId) w = (Err ActionInputError, w)) /\
  (raw = JUndefined \/ z.isObject raw = true ->
   exists listing,
     listFanficStories raw (signedIn userId) w
       = (Ok (mkReply true listing), after (Select TFanficStories) (db w) w) /\
     items listing
       = filter (fun s => String.eqb (FanficStory.userId s) userId) (FanficStories (db w)) /\
     (forall s, In s (items listing) <->
                In s (FanficStories (db w)) /\ FanficStory.userId s = userId) /\
     total listing = List.length (items listing)).
Proof.
  unfold listFanficStories, defineAction, ListFanficStories.input, z.optional.
  split.
  - intros Hdef Hobj. destruct raw; try reflexivity; try discriminate.
    exfalso. apply Hdef. reflexivity.
  - intros Hraw.
    assert (Hin : exists o, match raw with
                            | JUndefined => Some None
                            | _ => match (if z.isObject raw then Some tt else None) with
                                   | Some a => Some (Some a)
                                   | None => None
                                   end
                            end = Some o).
    { destruct Hraw as [->|Hobj]; [exists None; reflexivity|].
      destruct raw; try discriminate. exists (Some tt). reflexivity. }
    destruct Hin as [o ->].
    eexists. split; [reflexivity|]. simpl. split; [reflexivity|].
    split; [|reflexivity].
    intros s. rewrite filter_In. rewrite String.eqb_eq. reflexivity.
Qed.

Lemma listFanficStories_own_witness :
  listFanficStories JNull (signedIn "u1") sampleWorld = (Err ActionInputError, sampleWorld) /\
  exists listing,
    listFanficStories JUndefined (signedIn "u1") sampleWorld
      = (Ok (mkReply true listing), after (Select TFanficStories) sampleDb sampleWorld) /\
    items listing = [story1] /\ total listing = 1.
Proof.
  split.
  - destruct (listFanficStories_own JNull "u1" sampleWorld) as [Hbad _].
    apply Hbad; [discriminate | reflexivity].
  - destruct (listFanficStories_own JUndefined "u1" sampleWorld) as [_ Hgood].
    destruct (Hgood (or_introl eq_refl)) as [listing [Hrun [Hitems [_ Htotal]]]].
    exists listing. split; [exact Hrun|].
    split; [exact Hitems | rewrite Htotal, Hitems; reflexivity].
Defined.

(** For a caller who owns the story named in an accepted input, and when
    the [orderIndex] of every chapter filed under that story is a safe
    integer, [listFanficChapters] succeeds after one select on the stories
    and one on the chapters and changes nothing; its items are the chapters
    filed under that story and only those, in the order of the table, and
    [total] is their number. *)
Theorem listFanficChapters_of_story (raw : JsVal) (i : ListFanficChapters.Input)
    (userId : string) (w : World) :
  ListFanficChapters.input raw = Some i ->
  ownsStory (db w) (ListFanficChapters.storyId i) userId ->
  (forall c, In c (FanficChapters (db w)) ->
     FanficChapter.storyId c = ListFanficChapters.storyId i ->
     safeInteger (FanficChapter.orderIndex c) = true) ->
  exists listing,
    listFanficChapters raw (signedIn userId) w
      = (Ok (mkReply true listing),
         after (Select TFanficChapters) (db w) (after (Select TFanficStories) (db w) w)) /\
    (forall c, In c (items listing) <->
               In c (FanficChapters (db w)) /\
               FanficChapter.storyId c = ListFanficChapters.storyId i) /\
    items listing
      = filter (fun c => String.eqb (FanficChapter.storyId c) (ListFanficChapters.storyId i))
               (FanficChapters (db w)) /\
    total listing = List.length (items listing).
Proof.
  intros Hin Howns Hsafe. unfold listFanficChapters, defineAction. rewrite Hin.
  unfold ListFanficChapters.handler.
  enter_handler (requireUser_signedIn userId w). simpl User.id.
  unfold bind at 1. destruct (getOwnedStory_owned w Howns) as [story ->].
  unfold_monad. simpl.
  assert (Hread : forallb readable
            (filter (fun c => String.eqb (FanficChapter.storyId c)
                                         (ListFanficChapters.storyId i))
                    (FanficChapters (db w))) = true).
  { apply forallb_forall. intros c Hc. apply filter_In in Hc. destruct Hc as [Hc Hs].
    apply String.eqb_eq in Hs. apply (Hsafe c Hc Hs). }
  rewrite Hread.
  eexists. split; [reflexivity|]. simpl. split; [|split; reflexivity].
  intros c. rewrite filter_In. rewrite String.eqb_eq. reflexivity.
Qed.

Lemma listFanficChapters_of_story_witness :
  exists listing,
    outcome (listFanficChapters chaptersOfStory1 (signedIn "u1") sampleWorld)
      = Ok (mkReply true listing) /\
    items listing = [chapter1; chapter2] /\ total listing = 2.
Proof.
  destruct (@listFanficChapters_of_story chaptersOfStory1 (ListFanficChapters.mk "s1")
              "u1" sampleWorld eq_refl) as [listing [Hrun [_ [Hitems Htotal]]]].
  - exists story1. repeat split. left. reflexivity.
  - simpl. intros c [<-|[<-|[]]] _; reflexivity.
  - exists listing. split; [rewrite Hrun; reflexivity|].
    split; [exact Hitems | rewrite Htotal, Hitems; reflexivity].
Defined.

(** ** Moving a story to another fandom *)

(** When the owner of a story calls [updateFanficStory] with a string
    [fandomId], empty or not, the fandom is checked before anything is
    written. If no fandom has that id the action fails with NOT_FOUND, and if
    the first fandom with that id is a non-system fandom of someone else it
    fails with FORBIDDEN; in both cases the store is as before. If the action
    succeeds, a fandom with that id exists and the caller may use it. *)
Theorem updateFanficStory_fandom_checked (raw : JsVal) (i : UpdateFanficStory.Input)
    (userId fandomId : string) (w : World) :
  UpdateFanficStory.input raw = Some i ->
  UpdateFanficStory.fandomId i = Some (Some fandomId) ->
  ownsStory (db w) (UpdateFanficStory.id i) userId ->
  let run := updateFanficStory raw (signedIn userId) w in
  let found := filter (fun f => String.eqb (Fandom.id f) fandomId) (Fandoms (db w)) in
  ((forall f, In f (Fandoms (db w)) -> Fandom.id f <> fandomId) ->
   outcome run = Err (notFound "Fandom not found.") /\ db (world run) = db w) /\
  (forall fandom rest, found = fandom :: rest ->
     someoneElses fandom userId -> Fandom.isSystem fandom = false ->
     outcome run = Err (forbidden "You do not have access to this fandom.") /\
     db (world run) = db w) /\
  (forall reply, outcome run = Ok reply ->
     exists fandom rest, found = fandom :: rest /\
       ~ (someoneElses fandom userId /\ Fandom.isSystem fandom = false)).
Proof.
  intros Hin Hf Howns run found. subst run found.
  destruct (getOwnedStory_owned w Howns) as [story Hstory].
  assert (Hstep : updateFanficStory raw (signedIn userId) w =
            match ensureFandomAccessible fandomId userId
                    (after (Select TFanficStories) (db w) w) with
            | (Ok _, w2) =>
                (now <- newDate ;;
                 updated <- update (UpdateFanficStory.assign i now)
                              (fun r => String.eqb (FanficStory.id r) (UpdateFanficStory.id i)) ;;
                 ret (mkReply true (hd_error updated))) w2
            | (Err e, w2) => (Err e, w2)
            end).
  { unfold updateFanficStory, defineAction. rewrite Hin.
    unfold UpdateFanficStory.handler.
    enter_handler (requireUser_signedIn userId w). simpl User.id.
    unfold bind at 1. rewrite Hstory. rewrite Hf.
    unfold bind at 1. unfold bind at 1.
    destruct (ensureFandomAccessible fandomId userId _) as [[fandom|e] w2]; reflexivity. }
  rewrite Hstep, ensureFandomAccessible_run. simpl db.
  fold (UpdateFandom.ownedByOther).
  split; [|split].
  - intros Hnone.
    replace (filter _ (Fandoms (db w))) with (@nil Fandom.t); [split; reflexivity|].
    symmetry. apply filter_nil_iff. intros f Hmem. apply String.eqb_neq.
    apply Hnone. exact Hmem.
  - intros fandom rest -> Helse Hsys.
    change (truthy (Fandom.userId fandom) && strictNeq (Fandom.userId fandom) userId)
      with (UpdateFandom.ownedByOther fandom userId).
    apply ownedByOther_true in Helse. rewrite Helse, Hsys. split; reflexivity.
  - intros reply.
    destruct (filter _ (Fandoms (db w))) as [|fandom rest]; [discriminate|].
    change (truthy (Fandom.userId fandom) && strictNeq (Fandom.userId fandom) userId)
      with (UpdateFandom.ownedByOther fandom userId).
    destruct (UpdateFandom.ownedByOther fandom userId && negb (Fandom.isSystem fandom))
      eqn:Hcheck; [discriminate|].
    intros _. exists fandom, rest. split; [reflexivity|].
    intros [Helse Hsys]. apply ownedByOther_true in Helse.
    rewrite Helse, Hsys in Hcheck. discriminate.
Qed.

Lemma updateFanficStory_fandom_checked_witness :
  outcome (updateFanficStory moveStory1ToPrivate (signedIn "u1") sampleWorld)
    = Err (forbidden "You do not have access to this fandom.") /\
  db (world (updateFanficStory moveStory1ToPrivate (signedIn "u1") sampleWorld)) = sampleDb.
Proof.
  destruct (@updateFanficStory_fandom_checked moveStory1ToPrivate
              (UpdateFanficStory.mk "s1" (Some (Some "f-private")) None None None None
                                    None None None)
              "u1" "f-private" sampleWorld eq_refl eq_refl) as [_ [Hprivate _]].
  - exists story1. repeat split. left. reflexivity.
  - apply (Hprivate privateFandom [] eq_refl); [|reflexivity].
    exists "u2". repeat split; discriminate.
Defined.

(** ** Which rows a write can reach *)

Lemma touchesOnly_refl {R : Type} (rowId : R -> string) (id : string) (l : list R) :
  touchesOnly rowId id l l.
Proof.
  unfold touchesOnly. induction l as [|a l IH]; constructor; [left; reflexivity | exact IH].
Qed.

Lemma touchesOnly_trans {R : Type} (rowId : R -> string) (id : string) (l1 l2 l3 : list R) :
  touchesOnly rowId id l1 l2 -> touchesOnly rowId id l2 l3 -> touchesOnly rowId id l1 l3.
Proof.
  unfold touchesOnly. intros H12. revert l3.
  induction H12 as [|a b l1 l2 Hab _ IH]; intros l3 H23.
  - inversion H23. constructor.
  - inversion H23 as [|b' c l2' l3' Hbc Hrest]; subst. constructor.
    + destruct Hab as [->|Hid]; [exact Hbc | right; exact Hid].
    + apply IH. exact Hrest.
Qed.

Lemma touchesOnly_patch {R : Type} (rowId : R -> string) (id : string)
    (assign : R -> R) (l : list R) :
  touchesOnly rowId id l
    (map (fun r => if String.eqb (rowId r) id then assign r else r) l).
Proof.
  apply Forall2_map_self. intros r _.
  destruct (String.eqb_spec (rowId r) id) as [Hid|Hid]; [right; exact Hid | left; reflexivity].
Qed.

Lemma removesOnly_refl {R : Type} (rowId : R -> string) (id : string) (l : list R) :
  removesOnly rowId id l l.
Proof. intros r Hin. left. exact Hin. Qed.

Lemma removesOnly_trans {R : Type} (rowId : R -> string) (id : string) (l1 l2 l3 : list R) :
  removesOnly rowId id l1 l2 -> removesOnly rowId id l2 l3 -> removesOnly rowId id l1 l3.
Proof.
  intros H12 H23 r Hin. destruct (H12 r Hin) as [Hin2|Hid]; [|right; exact Hid].
  apply H23. exact Hin2.
Qed.

Lemma unique_by_key {R : Type} (key : R -> string) (l : list R) (a b : R) :
  NoDup (map key l) -> In a l -> In b l -> key a = key b -> a = b.
Proof.
  induction l as [|x l IH]; simpl; intros Hnd Ha Hb Hkey; [contradiction|].
  inversion Hnd as [|k ks Hnotin Hrest]; subst.
  destruct Ha as [->|Ha]; destruct Hb as [->|Hb].
  - reflexivity.
  - exfalso. apply Hnotin. rewrite Hkey. apply in_map. exact Hb.
  - exfalso. apply Hnotin. rewrite <- Hkey. apply in_map. exact Ha.
  - apply IH; assumption.
Qed.

Lemma Forall2_weaken_in {A : Type} (P Q : A -> A -> Prop) (l l' : list A) :
  (forall a b, In a l -> P a b -> Q a b) -> Forall2 P l l' -> Forall2 Q l l'.
Proof.
  intros Hpq H. induction H as [|a b l l' Hab _ IH]; constructor.
  - apply Hpq; [left; reflexivity | exact Hab].
  - apply IH. intros x y Hin. apply Hpq. right. exact Hin.
Qed.

Lemma updateFandom_touches (i : UpdateFandom.Input) (context : ActionAPIContext) :
  Steps (touchesFandoms (UpdateFandom.id i)) (UpdateFandom.handler i context).
Proof.
  assert (Hrefl : forall d, touchesFandoms (UpdateFandom.id i) d d)
    by (intros d; apply touchesOnly_refl).
  assert (Htrans : forall d1 d2 d3, touchesFandoms (UpdateFandom.id i) d1 d2 ->
                     touchesFandoms (UpdateFandom.id i) d2 d3 ->
                     touchesFandoms (UpdateFandom.id i) d1 d3)
    by (intros d1 d2 d3; apply touchesOnly_trans).
  unfold UpdateFandom.handler. stepping Hrefl Htrans.
  intros w. unfold touchesFandoms, update. simpl. apply touchesOnly_patch.
Qed.

Lemma updateFanficStory_touches (i : UpdateFanficStory.Input) (context : ActionAPIContext) :
  Steps (touchesStories (UpdateFanficStory.id i)) (UpdateFanficStory.handler i context).
Proof.
  assert (Hrefl : forall d, touchesStories (UpdateFanficStory.id i) d d)
    by (intros d; apply touchesOnly_refl).
  assert (Htrans : forall d1 d2 d3, touchesStories (UpdateFanficStory.id i) d1 d2 ->
                     touchesStories (UpdateFanficStory.id i) d2 d3 ->
                     touchesStories (UpdateFanficStory.id i) d1 d3)
    by (intros d1 d2 d3; apply touchesOnly_trans).
  unfold UpdateFanficStory.handler. stepping Hrefl Htrans.
  all: intros w; unfold touchesStories, update; simpl; apply touchesOnly_patch.
Qed.

Lemma updateFanficChapter_touches (i : UpdateFanficChapter.Input)
    (context : ActionAPIContext) :
  Steps (touchesChapters (UpdateFanficChapter.id i)) (UpdateFanficChapter.handler i context).
Proof.
  assert (Hrefl : forall d, touchesChapters (UpdateFanficChapter.id i) d d)
    by (intros d; apply touchesOnly_refl).
  assert (Htrans : forall d1 d2 d3, touchesChapters (UpdateFanficChapter.id i) d1 d2 ->
                     touchesChapters (UpdateFanficChapter.id i) d2 d3 ->
                     touchesChapters (UpdateFanficChapter.id i) d1 d3)
    by (intros d1 d2 d3; apply touchesOnly_trans).
  unfold UpdateFanficChapter.handler. stepping Hrefl Htrans.
  intros w. unfold touchesChapters, update. simpl. apply touchesOnly_patch.
Qed.

Lemma deleteFanficChapter_removes (i : DeleteFanficChapter.Input)
    (context : ActionAPIContext) :
  Steps (removesChapters (DeleteFanficChapter.id i)) (DeleteFanficChapter.handler i context).
Proof.
  assert (Hrefl : forall d, removesChapters (DeleteFanficChapter.id i) d d)
    by (intros d; apply removesOnly_refl).
  assert (Htrans : forall d1 d2 d3, removesChapters (DeleteFanficChapter.id i) d1 d2 ->
                     removesChapters (DeleteFanficChapter.id i) d2 d3 ->
                     removesChapters (DeleteFanficChapter.id i) d1 d3)
    by (intros d1 d2 d3; apply removesOnly_trans).
  unfold DeleteFanficChapter.handler, DeleteFanficChapter.deleteById.
  stepping Hrefl Htrans.
  intros w. unfold removesChapters, removesOnly, delete. simpl. intros r Hin.
  destruct (String.eqb_spec (FanficChapter.id r) (DeleteFanficChapter.id i)) as [Hid|Hid];
    [right; exact Hid|].
  left. apply filter_In. split; [exact Hin|].
  apply negb_true_iff. apply String.eqb_neq. exact Hid.
Qed.

Lemma Forall2_unchanged {A : Type} (P : A -> Prop) (l : list A) :
  Forall2 (fun r r' => r' = r \/ P r) l l.
Proof. induction l as [|a l IH]; constructor; [left; reflexivity | exact IH]. Qed.

Lemma getOwnedStory_returns (storyId userId : string) (w w1 : World) (story : FanficStory.t) :
  getOwnedStory storyId userId w = (Ok story, w1) ->
  In story (FanficStories (db w)) /\ FanficStory.id story = storyId /\
  FanficStory.userId story = userId /\ db w1 = db w.
Proof.
  rewrite getOwnedStory_run.
  destruct (filter _ (FanficStories (db w))) as [|s rest] eqn:Hf; [discriminate|].
  intros Heq. injection Heq as <- <-.
  apply filter_head in Hf. destruct Hf as [Hin Hp].
  apply andb_true_iff in Hp. destruct Hp as [Hid Hu].
  apply String.eqb_eq in Hid. apply String.eqb_eq in Hu. repeat split; assumption.
Qed.

Lemma getOwnedChapter_returns (chapterId storyId userId : string) (w w1 : World)
    (chapter : FanficChapter.t) :
  getOwnedChapter chapterId storyId userId w = (Ok chapter, w1) ->
  In chapter (FanficChapters (db w)) /\ FanficChapter.id chapter = chapterId /\
  FanficChapter.storyId chapter = storyId /\ ownsStory (db w) storyId userId.
Proof.
  intros Hrun.
  destruct (getOwnedChapter_ok _ _ _ _ Hrun)
    as [Hin [Hid [Hsid [_ [story [stories Hstory]]]]]].
  repeat split; try assumption.
  apply filter_head in Hstory. destruct Hstory as [Hsin Hsp].
  apply andb_true_iff in Hsp. destruct Hsp as [Hs1 Hs2].
  apply String.eqb_eq in Hs1. apply String.eqb_eq in Hs2.
  exists story. repeat split; assumption.
Qed.

(** With unique ids, [updateFanficStory] leaves every story of another user
    exactly as it was, whatever the input and whether it succeeds or fails:
    row by row, a story that differs afterwards is owned by the caller. *)
Theorem updateFanficStory_only_own (raw : JsVal) (userId : string) (w : World) :
  wellKeyed (db w) ->
  Forall2 (fun s s' => s' = s \/ FanficStory.userId s = userId)
          (FanficStories (db w))
          (FanficStories (db (world (updateFanficStory raw (signedIn userId) w)))).
Proof.
  intros [_ [Hkeys _]]. unfold updateFanficStory, defineAction, world.
  destruct (UpdateFanficStory.input raw) as [i|]; [|apply Forall2_unchanged].
  destruct (getOwnedStory (UpdateFanficStory.id i) userId w) as [[story|e] w1] eqn:Hcheck.
  - apply getOwnedStory_returns in Hcheck. destruct Hcheck as [Hin [Hid [Hu _]]].
    apply Forall2_weaken_in
      with (P := fun s s' => s' = s \/ FanficStory.id s = UpdateFanficStory.id i).
    + intros a b Ha [Hsame|Hhit]; [left; exact Hsame | right].
      assert (a = story) as ->; [|exact Hu].
      apply (unique_by_key FanficStory.id _ a story Hkeys Ha Hin). congruence.
    + apply (updateFanficStory_touches i (signedIn userId) w).
  - unfold UpdateFanficStory.handler.
    enter_handler (requireUser_signedIn userId w). simpl User.id.
    unfold bind at 1. rewrite Hcheck. simpl.
    pose proof (getOwnedStory_db (UpdateFanficStory.id i) userId w) as Hdb.
    rewrite Hcheck in Hdb. unfold world in Hdb. simpl in Hdb. rewrite Hdb.
    apply Forall2_unchanged.
Qed.

Lemma updateFanficStory_only_own_witness :
  Forall2 (fun s s' => s' = s \/ FanficStory.userId s = "u1")
          (FanficStories sampleDb)
          (FanficStories (db (world (updateFanficStory retitleStory1 (signedIn "u1")
                                                       sampleWorld)))).
Proof.
  apply (updateFanficStory_only_own retitleStory1 "u1" sampleWorld).
  unfold wellKeyed. simpl.
  repeat split;
    repeat (constructor; [simpl; intuition discriminate|]); constructor.
Defined.

(** With unique ids, the chapter actions reach only chapters of the caller's
    stories, whatever the input and whether they succeed or fail: a chapter
    that differs after [updateFanficChapter], and a chapter that is gone
    after [deleteFanficChapter], is filed under a story the caller owns. *)
Theorem chapter_writes_only_own (raw : JsVal) (userId : string) (w : World) :
  wellKeyed (db w) ->
  Forall2 (fun c c' => c' = c \/ ownsStory (db w) (FanficChapter.storyId c) userId)
          (FanficChapters (db w))
          (FanficChapters (db (world (updateFanficChapter raw (signedIn userId) w)))) /\
  (forall c, In c (FanficChapters (db w)) ->
     In c (FanficChapters (db (world (deleteFanficChapter raw (signedIn userId) w)))) \/
     ownsStory (db w) (FanficChapter.storyId c) userId).
Proof.
  intros [_ [_ Hkeys]]. split.
  - unfold updateFanficChapter, defineAction, world.
    destruct (UpdateFanficChapter.input raw) as [i|]; [|apply Forall2_unchanged].
    destruct (getOwnedChapter (UpdateFanficChapter.id i) (UpdateFanficChapter.storyId i)
                              userId w) as [[chapter|e] w1] eqn:Hcheck.
    + apply getOwnedChapter_returns in Hcheck. destruct Hcheck as [Hin [Hid [Hs Howns]]].
      apply Forall2_weaken_in
        with (P := fun c c' => c' = c \/ FanficChapter.id c = UpdateFanficChapter.id i).
      * intros a b Ha [Hsame|Hhit]; [left; exact Hsame | right].
        assert (a = chapter) as ->; [|rewrite Hs; exact Howns].
        apply (unique_by_key FanficChapter.id _ a chapter Hkeys Ha Hin). congruence.
      * apply (updateFanficChapter_touches i (signedIn userId) w).
    + unfold UpdateFanficChapter.handler.
      enter_handler (requireUser_signedIn userId w). simpl User.id.
      unfold bind at 1. rewrite Hcheck. simpl.
      pose proof (getOwnedChapter_db (UpdateFanficChapter.id i)
                    (UpdateFanficChapter.storyId i) userId w) as Hdb.
      rewrite Hcheck in Hdb. unfold world in Hdb. simpl in Hdb. rewrite Hdb.
      apply Forall2_unchanged.
  - unfold deleteFanficChapter, defineAction, world.
    destruct (DeleteFanficChapter.input raw) as [i|]; [|intros c Hc; left; exact Hc].
    destruct (getOwnedChapter (DeleteFanficChapter.id i) (DeleteFanficChapter.storyId i)
                              userId w) as [[chapter|e] w1] eqn:Hcheck.
    + apply getOwnedChapter_returns in Hcheck. destruct Hcheck as [Hin [Hid [Hs Howns]]].
      intros c Hc.
      destruct (deleteFanficChapter_removes i (signedIn userId) w c Hc) as [Hstill|Hhit];
        [left; exact Hstill | right].
      assert (c = chapter) as ->; [|rewrite Hs; exact Howns].
      apply (unique_by_key FanficChapter.id _ c chapter Hkeys Hc Hin). congruence.
    + unfold DeleteFanficChapter.handler.
      enter_handler (requireUser_signedIn userId w). simpl User.id.
      unfold bind at 1. rewrite Hcheck. simpl.
      pose proof (getOwnedChapter_db (DeleteFanficChapter.id i)
                    (DeleteFanficChapter.storyId i) userId w) as Hdb.
      rewrite Hcheck in Hdb. unfold world in Hdb. simpl in Hdb. rewrite Hdb.
      intros c Hc. left. exact Hc.
Qed.

Lemma chapter_writes_only_own_witness :
  In chapter1
     (FanficChapters (db (world (deleteFanficChapter dropChapter1 (signedIn "u1")
                                                     sampleWorld)))) \/
  ownsStory sampleDb (FanficChapter.storyId chapter1) "u1".
Proof.
  destruct (chapter_writes_only_own dropChapter1 "u1" sampleWorld) as [_ Hgone].
  - unfold wellKeyed. simpl.
    repeat split;
      repeat (constructor; [simpl; intuition discriminate|]); constructor.
  - apply Hgone. left. reflexivity.
Defined.

(** With unique ids, [updateFandom] leaves every fandom that belongs to
    someone else exactly as it was, system fandom or not, whatever the input
    and whether it succeeds or fails: row by row, a fandom that differs
    afterwards has no owner, an empty owner, or the caller as owner. *)
Theorem updateFandom_only_permitted (raw : JsVal) (userId : string) (w : World) :
  wellKeyed (db w) ->
  Forall2 (fun f f' => f' = f \/ ~ someoneElses f userId)
          (Fandoms (db w))
          (Fandoms (db (world (updateFandom raw (signedIn userId) w)))).
Proof.
  intros [Hkeys _].
  destruct (UpdateFandom.input raw) as [i|] eqn:Hin.
  2:{ unfold updateFandom, defineAction, world. rewrite Hin. apply Forall2_unchanged. }
  destruct (filter (fun f => String.eqb (Fandom.id f) (UpdateFandom.id i)) (Fandoms (db w)))
    as [|fandom rest] eqn:Hfound.
  - unfold updateFandom, defineAction, world. rewrite Hin.
    unfold UpdateFandom.handler.
    enter_handler (requireUser_signedIn userId w). simpl User.id.
    unfold bind at 1. rewrite ensureFandomAccessible_run, Hfound. simpl.
    apply Forall2_unchanged.
  - destruct (UpdateFandom.ownedByOther fandom userId) eqn:Hother.
    + rewrite (updateFandom_run raw userId w Hin Hfound), Hother. unfold world. simpl.
      apply Forall2_unchanged.
    + apply ownedByOther_false in Hother.
      apply filter_head in Hfound. destruct Hfound as [Hmem Hid].
      apply String.eqb_eq in Hid.
      apply Forall2_weaken_in
        with (P := fun f f' => f' = f \/ Fandom.id f = UpdateFandom.id i).
      * intros a b Ha [Hsame|Hhit]; [left; exact Hsame | right].
        assert (a = fandom) as ->; [|exact Hother].
        apply (unique_by_key Fandom.id _ a fandom Hkeys Ha Hmem). congruence.
      * unfold updateFandom, defineAction, world. rewrite Hin.
        apply (updateFandom_touches i (signedIn userId) w).
Qed.

Lemma updateFandom_only_permitted_witness :
  Forall2 (fun f f' => f' = f \/ ~ someoneElses f "u1")
          (Fandoms sampleDb)
          (Fandoms (db (world (updateFandom renameSystemFandom (signedIn "u1")
                                            sampleWorld)))).
Proof.
  apply (updateFandom_only_permitted renameSystemFandom "u1" sampleWorld).
  unfold wellKeyed. simpl.
  repeat split;
    repeat (constructor; [simpl; intuition discriminate|]); constructor.
Defined.

(** ** A fandom and its creator *)

Lemma createFandom_success (raw : JsVal) (userId : string) (w : World)
    (reply : Reply (option Fandom.t)) :
  outcome (createFandom raw (signedIn userId) w) = Ok reply ->
  exists i,
    CreateFandom.input raw = Some i /\
    existsb (fun x => String.eqb (Fandom.id x) (entropy w)) (Fandoms (db w)) = false /\
    let row := Fandom.mk (entropy w) (Some userId) (CreateFandom.name i)
                         (CreateFandom.canonType i) (CreateFandom.description i)
                         false (clock w) (clock w) in
    createFandom raw (signedIn userId) w
      = (Ok (mkReply true (Some row)),
         after (Insert TFandoms)
               (mkDb (Fandoms (db w) ++ [row]) (FanficStories (db w)) (FanficChapters (db w)))
               w).
Proof.
  unfold createFandom, defineAction.
  destruct (CreateFandom.input raw) as [i|]; [|discriminate].
  unfold CreateFandom.handler. enter_handler (requireUser_signedIn userId w).
  unfold_monad. unfold insert. simpl.
  destruct (existsb _ (Fandoms (db w))) eqn:Hfresh; [discriminate|].
  intros _. exists i. repeat split.
Qed.

(** The fandom that a user has just created can be updated by that user,
    and the reply is the created row with the assignment applied. Any other
    user is refused with FORBIDDEN and changes nothing, provided the
    creator's id is not the empty string. *)
Theorem created_fandom_updates (raw patch : JsVal) (i : UpdateFandom.Input)
    (creator : string) (w : World) (reply : Reply (option Fandom.t)) :
  outcome (createFandom raw (signedIn creator) w) = Ok reply ->
  UpdateFandom.input patch = Some i ->
  UpdateFandom.id i = entropy w ->
  let w' := world (createFandom raw (signedIn creator) w) in
  (exists row, data reply = Some row /\
     outcome (updateFandom patch (signedIn creator) w')
       = Ok (mkReply true (Some (UpdateFandom.assign i (clock w) row)))) /\
  (forall other, creator <> EmptyString -> other <> creator ->
     outcome (updateFandom patch (signedIn other) w')
       = Err (forbidden "You do not have access to this fandom.") /\
     db (world (updateFandom patch (signedIn other) w')) = db w').
Proof.
  intros Hcreated Hin Hid w'. subst w'.
  destruct (createFandom_success raw creator w Hcreated) as [c [_ [Hfresh Hrun]]].
  cbv zeta in Hrun. rewrite Hrun in Hcreated |- *.
  unfold outcome in Hcreated. simpl in Hcreated. injection Hcreated as <-.
  unfold world. simpl snd.
  set (row := Fandom.mk (entropy w) (Some creator) (CreateFandom.name c)
                        (CreateFandom.canonType c) (CreateFandom.description c)
                        false (clock w) (clock w)) in *.
  set (w1 := after (Insert TFandoms) _ w).
  assert (Hfound : filter (fun f => String.eqb (Fandom.id f) (UpdateFandom.id i))
                          (Fandoms (db w1)) = [row]).
  { rewrite Hid. simpl. apply filter_snoc_fresh; [exact Hfresh|].
    simpl. apply String.eqb_refl. }
  split.
  - exists row. split; [reflexivity|].
    rewrite (updateFandom_run patch creator w1 Hin Hfound).
    unfold UpdateFandom.ownedByOther. simpl. rewrite String.eqb_refl.
    simpl. rewrite andb_false_r. reflexivity.
  - intros other Hne Hother.
    rewrite (updateFandom_run patch other w1 Hin Hfound).
    unfold UpdateFandom.ownedByOther. simpl.
    apply String.eqb_neq in Hne. rewrite Hne.
    assert (Hneq : String.eqb creator other = false).
    { apply String.eqb_neq. intros Heq. apply Hother. symmetry. exact Heq. }
    rewrite Hneq. simpl. split; reflexivity.
Qed.

Lemma created_fandom_updates_witness :
  let w' := world (createFandom newFandom (signedIn "u1") sampleWorld) in
  outcome (updateFandom describeNewFandom (signedIn "u1") w')
    = Ok (mkReply true
            (Some (Fandom.mk "uuid-0" (Some "u1") "Earthsea" (Some "books")
                             (Some "An archipelago") false
                             (clock sampleWorld) (clock sampleWorld)))) /\
  outcome (updateFandom describeNewFandom (signedIn "u2") w')
    = Err (forbidden "You do not have access to this fandom.").
Proof.
  destruct (@created_fandom_updates newFandom describeNewFandom
              (UpdateFandom.mk "uuid-0" None None (Some "An archipelago"))
              "u1" sampleWorld
              (mkReply true
                 (Some (Fandom.mk "uuid-0" (Some "u1") "Earthsea" (Some "books") None false
                                  (clock sampleWorld) (clock sampleWorld))))
              eq_refl eq_refl eq_refl) as [[row [Hrow Hown]] Hother].
  simpl in Hrow. injection Hrow as <-.
  split; [exact Hown|].
  apply Hother; discriminate.
Defined.

(** [updateFandom] on an id that no fandom has fails with NOT_FOUND after
    the one select of the accessibility check, and writes nothing. *)
Theorem updateFandom_missing (raw : JsVal) (i : UpdateFandom.Input) (userId : string)
    (w : World) :
  UpdateFandom.input raw = Some i ->
  (forall f, In f (Fandoms (db w)) -> Fandom.id f <> UpdateFandom.id i) ->
  updateFandom raw (signedIn userId) w
    = (Err (notFound "Fandom not found."), after (Select TFandoms) (db w) w).
Proof.
  intros Hin Hnone. unfold updateFandom, defineAction. rewrite Hin.
  unfold UpdateFandom.handler. enter_handler (requireUser_signedIn userId w).
  unfold bind at 1. rewrite ensureFandomAccessible_run. simpl User.id.
  replace (filter _ (Fandoms (db w))) with (@nil Fandom.t); [reflexivity|].
  symmetry. apply filter_nil_iff. intros f Hmem. apply String.eqb_neq.
  apply Hnone. exact Hmem.
Qed.

Lemma updateFandom_missing_witness :
  updateFandom renameMissingFandom (signedIn "u1") sampleWorld
    = (Err (notFound "Fandom not found."), after (Select TFandoms) sampleDb sampleWorld).
Proof.
  apply (@updateFandom_missing renameMissingFandom
           (UpdateFandom.mk "f-missing" (Some "Nowhere") None None) "u1" sampleWorld
           eq_refl).
  simpl. intros f [<-|[<-|[<-|[<-|[<-|[]]]]]]; discriminate.
Defined.

(** ** Reading back an update *)

Lemma filter_patch_commute {R : Type} (cond pick : R -> bool) (assign : R -> R)
    (l : list R) :
  (forall r, pick (assign r) = pick r) ->
  filter pick (map (fun r => if cond r then assign r else r) l)
    = map (fun r => if cond r then assign r else r) (filter pick l).
Proof.
  intros Hpick. induction l as [|a l IH]; simpl; [reflexivity|].
  assert (Ha : pick (if cond a then assign a else a) = pick a).
  { destruct (cond a); [apply Hpick | reflexivity]. }
  rewrite Ha. destruct (pick a); simpl; rewrite IH; reflexivity.
Qed.

(** With unique ids, the story in the reply of a successful
    [updateFanficStory] is the story that [getOwnedStory] returns to the
    caller right afterwards under the same id: the caller still owns it and
    reads back what was written. *)
Theorem updateFanficStory_read_back (raw : JsVal) (userId : string) (w : World)
    (reply : Reply (option FanficStory.t)) :
  wellKeyed (db w) ->
  outcome (updateFanficStory raw (signedIn userId) w) = Ok reply ->
  exists i row,
    UpdateFanficStory.input raw = Some i /\
    data reply = Some row /\
    FanficStory.userId row = userId /\
    outcome (getOwnedStory (UpdateFanficStory.id i) userId
                           (world (updateFanficStory raw (signedIn userId) w))) = Ok row.
Proof.
  intros [_ [Hkeys _]] Hok.
  destruct (updateFanficStory_success raw (signedIn userId) w Hok)
    as [i [first [rest [Hin [Hfound [Hdb Hreply]]]]]].
  assert (Howned : exists story others,
            filter (fun s => String.eqb (FanficStory.id s) (UpdateFanficStory.id i)
                             && String.eqb (FanficStory.userId s) userId)
                   (FanficStories (db w)) = story :: others).
  { destruct (getOwnedStory (UpdateFanficStory.id i) userId w) as [[story|e] w1] eqn:Hcheck.
    - rewrite getOwnedStory_run in Hcheck.
      destruct (filter (fun s => String.eqb (FanficStory.id s) (UpdateFanficStory.id i)
                                 && String.eqb (FanficStory.userId s) userId)
                       (FanficStories (db w))) as [|s others]; [discriminate|].
      exists s, others. reflexivity.
    - exfalso. revert Hok. unfold updateFanficStory, defineAction. rewrite Hin.
      unfold UpdateFanficStory.handler.
      enter_handler (requireUser_signedIn userId w). simpl User.id.
      unfold bind at 1. rewrite Hcheck. discriminate. }
  destruct Howned as [story [others Howned]].
  assert (Hsame : story = first).
  { pose proof (filter_head _ _ Howned) as [Hs Hsp].
    pose proof (filter_head _ _ Hfound) as [Hf Hfp].
    apply andb_true_iff in Hsp. destruct Hsp as [Hsid _].
    apply String.eqb_eq in Hsid. apply String.eqb_eq in Hfp.
    apply (unique_by_key FanficStory.id _ story first Hkeys Hs Hf). congruence. }
  subst first.
  exists i, (UpdateFanficStory.assign i (clock w) story).
  split; [exact Hin|]. split; [rewrite Hreply, Hfound; reflexivity|].
  split.
  { simpl. pose proof (filter_head _ _ Howned) as [_ Hsp].
    apply andb_true_iff in Hsp. destruct Hsp as [_ Hu]. apply String.eqb_eq. exact Hu. }
  rewrite getOwnedStory_run. unfold outcome. simpl. rewrite Hdb. simpl.
  rewrite filter_patch_commute by reflexivity. rewrite Howned. simpl.
  pose proof (filter_head _ _ Hfound) as [_ Hfp]. rewrite Hfp. reflexivity.
Qed.

Lemma updateFanficStory_read_back_witness :
  exists i row,
    UpdateFanficStory.input retitleStory1 = Some i /\
    FanficStory.title row = "Second Beginnings" /\
    outcome (getOwnedStory (UpdateFanficStory.id i) "u1"
               (world (updateFanficStory retitleStory1 (signedIn "u1") sampleWorld)))
      = Ok row.
Proof.
  destruct (@updateFanficStory_read_back retitleStory1 "u1" sampleWorld
              (mkReply true
                 (Some (FanficStory.mk "s1" "u1" (Some "f-own") "Second Beginnings"
                          (Some "After the war") (Some "PG-13") None None (Some "idea")
                          None 20%Z (clock sampleWorld)))))
    as [i [row [Hin [Hrow [_ Hread]]]]].
  - unfold wellKeyed. simpl.
    repeat split;
      repeat (constructor; [simpl; intuition discriminate|]); constructor.
  - reflexivity.
  - exists i, row. split; [exact Hin|]. split; [|exact Hread].
    simpl in Hrow. injection Hrow as <-. reflexivity.
Defined.

Lemma createFanficStory_checks_fandom_witness :
  createFanficStory newStoryInPrivateFandom (signedIn "u1") sampleWorld
    = (Err (forbidden "You do not have access to this fandom."),
       after (Select TFandoms) sampleDb sampleWorld).
Proof.
  apply (@createFanficStory_checks_fandom newStoryInPrivateFandom
           (CreateFanficStory.mk (Some "f-private") "Trespass" None None None None None None)
           "u1" "f-private" sampleWorld
           (forbidden "You do not have access to this fandom.")
           eq_refl eq_refl).
  - discriminate.
  - reflexivity.
Defined.
